(** * labelme Shape: point list and coordinate buffer

    A shallow embedding of [labelme/shape.py] (class [Shape]): the point
    list [points], the numpy coordinate buffer [poly_array], the mutating
    operations on both, the two hit-testing routines, path construction
    and painting.

    Python values are modelled as follows.
    - A coordinate (a Python float, [qreal] in Qt) is an element of a type
      [C] carrying the arithmetic the module uses (class [Scalar]); the
      instances are [Z] (executable) and [R] (the reals the floats stand for).
    - [QPointF] and [QRectF] are records; a row of [poly_array] is a pair.
      [==] on two points is Qt's comparison, which takes two coordinates
      that differ by at most 1e-12 as equal ([s_fuzzy_eqb]).
    - A Python list is a Rocq list; an index is a [Z] (a Python [int] has
      no bound) and follows Python's rules: a negative index counts from
      the end, and [list.insert] and [list.pop] raise [OverflowError] for
      an index that does not fit a machine index.
    - A numpy array is an [ndarray]: the n-by-2 array of rows, or the
      one-dimensional empty array that [np.array([])] is.
    - [self.poly_array] is [None] until the first point is added:
      [option ndarray].
    - A method that can raise returns an [outcome] together with the shape
      as it is when the method returns or raises: a mutation done before an
      exception stays done. *)

From Stdlib Require Import ZArith Reals Lra Lia.
From stdpp Require Import base option list strings pretty.

Local Open Scope Z_scope.

(** ** Coordinates *)

Class Scalar (C : Type) : Type := {
  s_eq_dec : EqDecision C;
  s_add : C -> C -> C;
  s_sub : C -> C -> C;
  s_mul : C -> C -> C;
  s_sqrt : C -> C;
  s_of_Z : Z -> C;
  s_ltb : C -> C -> bool;
  s_leb : C -> C -> bool;
  (** The comparison of two coordinates inside [QPointF]'s [==]. *)
  s_fuzzy_eqb : C -> C -> bool
}.
#[global] Existing Instance s_eq_dec.

(** [x ** 2] and [math.pow(x, 2)]. *)
Definition pow2 {C} `{Scalar C} (a : C) : C := s_mul a a.

(** The order laws of the comparison [<], for the properties that speak of a
    minimum. *)
Class ScalarOrder (C : Type) `{Scalar C} : Prop := {
  s_lt_irrefl : forall a : C, s_ltb a a = false;
  s_lt_trans : forall a b c : C,
    s_ltb a b = true -> s_ltb b c = true -> s_ltb a c = true;
  s_lt_trichotomy : forall a b : C,
    s_ltb a b = true \/ a = b \/ s_ltb b a = true
}.

(** Qt's [qFuzzyIsNull(d)] is [qAbs(d) <= 0.000000000001]; [QPointF]'s
    [operator==] (Qt 5) applies it to the difference of the two [x] and
    of the two [y] coordinates. *)
Definition fuzzy_tolerance : R := (1 / 1000000000000)%R.

(** On integers a difference of at most 1e-12 is a difference of 0. *)
#[global] Instance Z_Scalar : Scalar Z := {
  s_eq_dec := Z.eq_dec;
  s_add := Z.add;
  s_sub := Z.sub;
  s_mul := Z.mul;
  s_sqrt := Z.sqrt;
  s_of_Z := fun n => n;
  s_ltb := Z.ltb;
  s_leb := Z.leb;
  s_fuzzy_eqb := Z.eqb
}.

#[global] Instance R_Scalar : Scalar R := {
  s_eq_dec := Req_dec_T;
  s_add := Rplus;
  s_sub := Rminus;
  s_mul := Rmult;
  s_sqrt := sqrt;
  s_of_Z := IZR;
  s_ltb := fun a b => if Rlt_dec a b then true else false;
  s_leb := fun a b => if Rle_dec a b then true else false;
  s_fuzzy_eqb := fun a b =>
    if Rle_dec (Rabs (a - b)) fuzzy_tolerance then true else false
}.

(** ** Python sequences *)

Module Py.

(** Exceptions the module can raise. numpy's [AxisError] is a subclass of
    [IndexError] (and of [ValueError]); it is caught as an [IndexError]. *)
Inductive exn : Set :=
| IndexError | TypeError | ValueError | OverflowError | ZeroDivisionError.

Inductive outcome (A : Type) : Type :=
| Return (a : A)
| Raise (e : exn).
Arguments Return {A} a.
Arguments Raise {A} e.

(** [l[i]]: a negative index counts from the end; outside [-n, n) the
    access raises [IndexError] ([None] here), however large the index. *)
Definition norm_index (n : nat) (i : Z) : option nat :=
  if 0 <=? i then (if i <? Z.of_nat n then Some (Z.to_nat i) else None)
  else if - Z.of_nat n <=? i then Some (Z.to_nat (Z.of_nat n + i)) else None.

Definition index {A} (l : list A) (i : Z) : option A :=
  k ← norm_index (length l) i; l !! k.

(** [l[i] = f(l[i])]: [None] for the [IndexError] of the read. *)
Definition update {A} (l : list A) (i : Z) (f : A -> A) : option (list A) :=
  k ← norm_index (length l) i; a ← l !! k; Some (<[k:=f a]> l).

(** A machine index ([Py_ssize_t], 64 bits). *)
Definition fits_ssize_t (i : Z) : bool :=
  (- 2 ^ 63 <=? i) && (i <=? 2 ^ 63 - 1).

(** Whether [list.insert] and [list.pop] can convert the index [i] they
    are given, on a list of [n] elements, to a machine index; they raise
    [OverflowError] when they cannot. A list has fewer than [2 ^ 63]
    elements, so an index in [-n, n] always converts. *)
Definition index_fits (n : nat) (i : Z) : bool :=
  fits_ssize_t i || ((- Z.of_nat n <=? i) && (i <=? Z.of_nat n)).

(** [l.pop(i)]: the list without its element [i]; [IndexError] outside
    [-n, n). *)
Definition pop {A} (l : list A) (i : Z) : outcome (list A) :=
  match norm_index (length l) i with
  | Some k => Return (delete k l)
  | None =>
      if index_fits (length l) i then Raise IndexError
      else Raise OverflowError
  end.

(** The position a slice bound or [list.insert] index stands for: negative
    counts from the end, and the result is clamped to [0, n]. *)
Definition clamp_index (n : nat) (i : Z) : nat :=
  if i <? 0 then Z.to_nat (Z.max 0 (Z.of_nat n + i))
  else Z.to_nat (Z.min i (Z.of_nat n)).

(** The list [l.insert(i, x)] makes of [l]: no index is out of range. *)
Definition insert_at {A} (i : Z) (x : A) (l : list A) : list A :=
  let k := clamp_index (length l) i in take k l ++ x :: drop k l.

(** [l.insert(i, x)]. *)
Definition insert {A} (i : Z) (x : A) (l : list A) : outcome (list A) :=
  if index_fits (length l) i then Return (insert_at i x l)
  else Raise OverflowError.

(** [l[lo:hi]], a missing bound being [None]. *)
Definition slice {A} (l : list A) (lo hi : option Z) : list A :=
  let n := length l in
  let a := from_option (clamp_index n) 0%nat lo in
  let b := from_option (clamp_index n) n hi in
  take (b - a) (drop a l).

(** [range(start, start + len)] and [range(start, start - len, -1)]. *)
Definition range_up (start : Z) (len : nat) : list Z :=
  (fun k => start + Z.of_nat k) <$> seq 0 len.

Definition range_down (start : Z) (len : nat) : list Z :=
  (fun k => start - Z.of_nat k) <$> seq 0 len.

End Py.
Import Py.

(** ** Qt value types *)

Module QPointF.
Record t (C : Type) : Type := mk { x : C; y : C }.
Arguments mk {C} x y.
Arguments x {C} _.
Arguments y {C} _.

(** [p == q]. *)
Definition eqb {C} `{Scalar C} (p q : t C) : bool :=
  s_fuzzy_eqb (x p) (x q) && s_fuzzy_eqb (y p) (y q).

(** [p + q] of two points. *)
Definition add {C} `{Scalar C} (p q : t C) : t C :=
  mk (s_add (x p) (x q)) (s_add (y p) (y q)).

(** [p - q]. *)
Definition sub {C} `{Scalar C} (p q : t C) : t C :=
  mk (s_sub (x p) (x q)) (s_sub (y p) (y q)).
End QPointF.

Module QRectF.
Record t (C : Type) : Type := mk { left : C; top : C; width : C; height : C }.
Arguments mk {C} left top width height.
Arguments left {C} _.
Arguments top {C} _.
Arguments width {C} _.
Arguments height {C} _.
End QRectF.

(** The elements a [QPainterPath] is built from in this module. *)
Inductive PathElement (C : Type) : Type :=
| MoveTo (p : QPointF.t C)
| LineTo (p : QPointF.t C)
| AddRect (r : QRectF.t C)
| AddEllipse (r : QRectF.t C).
Arguments MoveTo {C} p.
Arguments LineTo {C} p.
Arguments AddRect {C} r.
Arguments AddEllipse {C} r.

Definition QPainterPath (C : Type) : Type := list (PathElement C).

(** The values the [shape_type] setter accepts. *)
Module ShapeType.
Inductive t : Set :=
| polygon | trace | rectangle | point | line | circle | linestrip.

#[global] Instance eq_dec : EqDecision t.
Proof. solve_decision. Defined.
End ShapeType.

(** ** The coordinate buffer *)

(** A row [[x, y]] of the coordinate buffer. *)
Definition row (C : Type) : Type := (C * C)%type.

(** The arrays [poly_array] can hold. [np.array([[x, y], ...])] of [n >= 1]
    points is the n-by-2 array of their rows; slicing and [np.delete] can
    bring it down to the 0-by-2 array, [Rows []]. [np.array([])], of no
    points, is one-dimensional and has length 0: it has no columns. *)
Inductive ndarray (C : Type) : Type :=
| Empty1D
| Rows (rows : list (row C)).
Arguments Empty1D {C}.
Arguments Rows {C} rows.

(** The rows of an array; [len(a)] is their number. *)
Definition np_rows {C} (a : ndarray C) : list (row C) :=
  match a with
  | Empty1D => []
  | Rows rows => rows
  end.

(** [a[lo:hi]]: a slice of a one-dimensional array is one-dimensional. *)
Definition np_slice {C} (a : ndarray C) (lo hi : option Z) : ndarray C :=
  match a with
  | Empty1D => Empty1D
  | Rows rows => Rows (slice rows lo hi)
  end.

(** [np.append(a, [[x, y]], axis=0)]: [None] for the [ValueError] numpy
    raises when [a] does not have two dimensions. *)
Definition np_append {C} (a : ndarray C) (r : row C) : option (ndarray C) :=
  match a with
  | Empty1D => None
  | Rows rows => Some (Rows (rows ++ [r]))
  end.

(** [np.delete(a, i, axis=0)]: [None] for the [IndexError] of an index
    outside [-len(a), len(a)). *)
Definition np_delete {C} (a : ndarray C) (i : Z) : option (ndarray C) :=
  match a with
  | Empty1D => None
  | Rows rows => k ← norm_index (length rows) i; Some (Rows (delete k rows))
  end.

(** [a + np.array([dx, dy])]: [None] for the [ValueError] of broadcasting
    the shapes (0,) and (2,). *)
Definition np_add_row {C} `{Scalar C} (a : ndarray C) (d : row C)
  : option (ndarray C) :=
  match a with
  | Empty1D => None
  | Rows rows => Some (Rows ((fun r => (s_add r.1 d.1, s_add r.2 d.2)) <$> rows))
  end.

(** ** The shape *)

(** The attributes of a [Shape] that its geometry and editing read or
    write. Labels, flags and colours are left out: no operation below
    depends on them. The attributes only painting reads are in
    [Rendering]. *)
Record Shape (C : Type) : Type := mkShape {
  points : list (QPointF.t C);
  poly_array : option (ndarray C);
  _closed : bool;
  prev_val : option Z;
  shape_type : ShapeType.t
}.
Arguments mkShape {C} points poly_array _closed prev_val shape_type.
Arguments points {C} _.
Arguments poly_array {C} _.
Arguments _closed {C} _.
Arguments prev_val {C} _.
Arguments shape_type {C} _.

Definition set_points {C} (v : list (QPointF.t C)) (s : Shape C) : Shape C :=
  mkShape v (poly_array s) (_closed s) (prev_val s) (shape_type s).

Definition set_poly_array {C} (v : option (ndarray C)) (s : Shape C) : Shape C :=
  mkShape (points s) v (_closed s) (prev_val s) (shape_type s).

Definition set_closed {C} (v : bool) (s : Shape C) : Shape C :=
  mkShape (points s) (poly_array s) v (prev_val s) (shape_type s).

Definition set_prev_val {C} (v : option Z) (s : Shape C) : Shape C :=
  mkShape (points s) (poly_array s) (_closed s) v (shape_type s).

(** [[p.x(), p.y()]]. *)
Definition row_of {C} (p : QPointF.t C) : row C := (QPointF.x p, QPointF.y p).

(** The invariant of the data model: the buffer exists, is an array of
    rows, has one row per point, and row [i] is the coordinates of point
    [i]. *)
Definition consistent {C} (s : Shape C) : Prop :=
  poly_array s = Some (Rows (row_of <$> points s)).

(** [Shape.__init__]: no points, no buffer, open, nothing cached. *)
Definition init {C} (st : ShapeType.t) : Shape C := mkShape [] None false None st.

Section Editing.
Context {C : Type} `{Scalar C}.

Local Abbreviation Point := (QPointF.t C).

(** [close]. *)
Definition close (s : Shape C) : Shape C := set_closed true s.

Definition isClosed (s : Shape C) : bool := _closed s.

(** [np.array([[p.x(), p.y()] for p in points])]. *)
Definition np_array (pts : list Point) : ndarray C :=
  match pts with
  | [] => Empty1D
  | _ :: _ => Rows (row_of <$> pts)
  end.

(** [init_poly_array]. *)
Definition init_poly_array (s : Shape C) : Shape C :=
  set_poly_array (Some (np_array (points s))) s.

(** [self.points and point == self.points[0]], the test of [addPoint]. *)
Definition equals_first (point : Point) (s : Shape C) : bool :=
  match points s with
  | [] => false
  | p0 :: _ => QPointF.eqb point p0
  end.

(** [addPoint]. [np.append] raises after the point was appended to
    [points]. *)
Definition addPoint (point : Point) (s : Shape C) : outcome unit * Shape C :=
  if equals_first point s then (Return (), close s)
  else
    let s1 := set_points (points s ++ [point]) s in
    match poly_array s1 with
    | None => (Return (), init_poly_array s1)
    | Some a =>
        match np_append a (row_of point) with
        | Some a' => (Return (), set_poly_array (Some a') s1)
        | None => (Raise ValueError, s1)
        end
    end.

(** [canAddPoint]. *)
Definition canAddPoint (s : Shape C) : bool :=
  bool_decide (shape_type s ∈ [ShapeType.polygon; ShapeType.trace; ShapeType.linestrip]).

(** [popPoint]: the returned point ([None] on an empty shape). Slicing
    [None] raises [TypeError]. *)
Definition popPoint (s : Shape C) : outcome (option Point) * Shape C :=
  match points s with
  | [] => (Return None, s)
  | _ :: _ =>
      match poly_array s with
      | None => (Raise TypeError, s)
      | Some a =>
          let s1 := set_poly_array (Some (np_slice a None (Some (-1)))) s in
          (Return (last (points s1)), set_points (removelast (points s1)) s1)
      end
  end.

(** [np.insert(arr, i, values)] as [insertPoint] calls it, with no [axis]:
    numpy works on a flattened copy of [arr] ([N] scalars; a [None] buffer
    is read as an array holding the one object [None]), raises
    [IndexError] when [i] is outside [-N, N], and otherwise returns a new
    array. [arr] itself is never changed. The value says whether the call
    returns. *)
Definition np_insert_returns (arr : option (ndarray C)) (i : Z) : bool :=
  let N := match arr with
           | None => 1
           | Some a => 2 * Z.of_nat (length (np_rows a))
           end in
  (- N <=? i) && (i <=? N).

(** [insertPoint]: the array [np.insert] returns is dropped. An
    [OverflowError] of [points.insert] ends the call before anything
    changes. *)
Definition insertPoint (i : Z) (point : Point) (s : Shape C)
  : outcome unit * Shape C :=
  match insert i point (points s) with
  | Raise e => (Raise e, s)
  | Return pts =>
      let s1 := set_points pts s in
      if np_insert_returns (poly_array s1) i then (Return (), s1)
      else (Raise IndexError, s1)
  end.

(** The record [logger.warn] writes in [removePoint]. *)
Definition index_warning (i : Z) : string :=
  "Index Error with point " +:+ pretty i.

(** [removePoint]: how the call ends, the shape afterwards and the
    warnings logged. Only [IndexError] is caught: the [OverflowError] of
    [points.pop] leaves the method. [np.delete] on a [None] buffer raises
    [AxisError], an [IndexError]. *)
Definition removePoint (i : Z) (s : Shape C)
  : outcome unit * Shape C * list string :=
  match pop (points s) i with
  | Raise IndexError => (Return (), s, [index_warning i])
  | Raise e => (Raise e, s, [])
  | Return pts =>
      let s1 := set_points pts s in
      match poly_array s1 ≫= (fun a => np_delete a i) with
      | None => (Return (), s1, [index_warning i])
      | Some a' => (Return (), set_poly_array (Some a') s1, [])
      end
  end.

(** [moveBy]. Adding an array to [None] raises [TypeError], and to the
    one-dimensional empty array [ValueError], after [points] was
    rebound. *)
Definition moveBy (offset : Point) (s : Shape C) : outcome unit * Shape C :=
  let s1 := set_points ((fun p => QPointF.add p offset) <$> points s) s in
  match poly_array s1 with
  | None => (Raise TypeError, s1)
  | Some a =>
      match np_add_row a (row_of offset) with
      | Some a' => (Return (), set_poly_array (Some a') s1)
      | None => (Raise ValueError, s1)
      end
  end.

(** [moveVertexBy]. *)
Definition moveVertexBy (i : Z) (offset : Point) (s : Shape C)
  : outcome unit * Shape C :=
  match update (points s) i (fun p => QPointF.add p offset) with
  | None => (Raise IndexError, s)
  | Some pts =>
      let s1 := set_points pts s in
      match poly_array s1 with
      | None => (Raise TypeError, s1)
      | Some Empty1D => (Raise IndexError, s1)
      | Some (Rows pa) =>
          let d := row_of offset in
          match update pa i (fun r => (s_add r.1 d.1, s_add r.2 d.2)) with
          | None => (Raise IndexError, s1)
          | Some pa' => (Return (), set_poly_array (Some (Rows pa')) s1)
          end
      end
  end.

End Editing.

(** ** Hit testing and path construction *)

Section HitTesting.
Context {C : Type} `{Scalar C}.

Local Abbreviation Point := (QPointF.t C).

(** [labelme.utils.distancetoline(point, line)] is not part of this file's
    source; the edge search is stated for whatever function it is, and
    whatever it does with a line: return a distance or raise. A line is
    the sequence of rows handed over (two rows for a well-formed edge). *)
Variable distancetoline : Point -> list (row C) -> outcome C.

(** [QPainterPath.contains] and [QPainterPath.boundingRect], of Qt. *)
Variable path_contains : QPainterPath C -> Point -> bool.
Variable path_boundingRect : QPainterPath C -> QRectF.t C.

(** [np.min]: [None] for the [ValueError] on an empty array. *)
Definition np_min (l : list C) : option C :=
  match l with
  | [] => None
  | a :: l' => Some (foldl (fun m b => if s_ltb b m then b else m) a l')
  end.

(** The scan behind [np.argmin]: [best] is the index of the smallest value
    [m] seen so far, replaced only by a strictly smaller one. *)
Fixpoint argmin_from (best : nat) (m : C) (k : nat) (l : list C) : nat :=
  match l with
  | [] => best
  | b :: l' =>
      if s_ltb b m then argmin_from k b (S k) l'
      else argmin_from best m (S k) l'
  end.

(** [np.argmin]: the first index of the minimum. *)
Definition np_argmin (l : list C) : option nat :=
  match l with
  | [] => None
  | a :: l' => Some (argmin_from 0 a 1 l')
  end.

(** [np.sum((poly_array - [px, py]) ** 2, axis=1)]. *)
Definition sq_dists (point : Point) (pa : list (row C)) : list C :=
  (fun r =>
     s_add (pow2 (s_sub r.1 (QPointF.x point)))
           (pow2 (s_sub r.2 (QPointF.y point)))) <$> pa.

(** [nearestVertex]: the pair it returns. Subtracting from [None] raises
    [TypeError]; subtracting the two coordinates from the one-dimensional
    empty array raises [ValueError], and so does [np.min] on no rows. *)
Definition nearestVertex (point : Point) (epsilon : C) (s : Shape C)
  : outcome (option Z * option Z) :=
  match poly_array s with
  | None => Raise TypeError
  | Some Empty1D => Raise ValueError
  | Some (Rows pa) =>
      let dist := sq_dists point pa in
      match np_min dist, np_argmin dist with
      | Some m, Some k =>
          if s_ltb (s_sqrt m) epsilon then Return (Some (Z.of_nat k), None)
          else Return (None, Some (Z.of_nat k))
      | _, _ => Raise ValueError
      end
  end.

(** [np.array([poly_array[-1], poly_array[0]])]. *)
Definition closing_line (pa : list (row C)) : outcome (list (row C)) :=
  match index pa (-1), index pa 0 with
  | Some a, Some b => Return [a; b]
  | _, _ => Raise IndexError
  end.

(** The forward candidate of one step of [nearestEdge]: the value of [i]
    after the branch (it is reduced modulo the length in the last one) and
    the line tested. *)
Definition line_pos (pa : list (row C)) (i : Z) : outcome (Z * list (row C)) :=
  let lenght := Z.of_nat (length pa) in
  if (i =? 0) || (i =? lenght) then
    match closing_line pa with
    | Return l => Return (i, l)
    | Raise e => Raise e
    end
  else
    let i := i mod lenght in
    Return (i, slice pa (Some (i - 1)) (Some (i + 1))).

(** The backward candidate. *)
Definition line_neg (pa : list (row C)) (j : Z) : outcome (list (row C)) :=
  if (j >? 0) || (j <? -1) then Return (slice pa (Some (j - 1)) (Some (j + 1)))
  else if j =? 0 then closing_line pa
  else Return (slice pa None (Some 2)).

(** The [for] loop of [nearestEdge] over the zipped ranges. Both
    distances are computed, the forward one first, before either is
    compared. *)
Fixpoint nearestEdge_loop (pa : list (row C)) (point : Point) (epsilon : C)
    (ijs : list (Z * Z)) (s : Shape C) : outcome (option Z) * Shape C :=
  match ijs with
  | [] => (Return None, s)
  | (i, j) :: rest =>
      match line_pos pa i, line_neg pa j with
      | Return (i, lp), Return ln =>
          match distancetoline point lp with
          | Raise e => (Raise e, s)
          | Return dist_i =>
              match distancetoline point ln with
              | Raise e => (Raise e, s)
              | Return dist_j =>
                  if s_leb dist_i epsilon then
                    (Return (Some i), set_prev_val (Some i) s)
                  else if s_leb dist_j epsilon then
                    (Return (Some j), set_prev_val (Some i) s)
                  else nearestEdge_loop pa point epsilon rest s
              end
          end
      | Raise e, _ => (Raise e, s)
      | _, Raise e => (Raise e, s)
      end
  end.

(** [nearestEdge], called with a [minDistIndex]. [on_tick] is the outcome
    of the wall-clock test [abs(t - round(t)) <= 0.005] on the time read
    at entry. [len(None)] raises [TypeError]. *)
Definition nearestEdge (on_tick : bool) (point : Point) (epsilon : C)
    (minDistIndex : Z) (s : Shape C) : outcome (option Z) * Shape C :=
  if on_tick && bool_decide (prev_val s <> None) then (Return (prev_val s), s)
  else
    match poly_array s with
    | None => (Raise TypeError, s)
    | Some a =>
        let pa := np_rows a in
        let half := (length pa / 2)%nat in
        nearestEdge_loop pa point epsilon
          (zip (range_up minDistIndex half) (range_down minDistIndex half)) s
    end.

(** [nearestEdge], called without a [minDistIndex]: the default is
    [None], and past the cached-result shortcut either [len(None)] or
    [None + int(lenght / 2)] raises [TypeError]. *)
Definition nearestEdge_default (on_tick : bool) (point : Point) (epsilon : C)
    (s : Shape C) : outcome (option Z) * Shape C :=
  if on_tick && bool_decide (prev_val s <> None) then (Return (prev_val s), s)
  else (Raise TypeError, s).

(** [getRectFromLine]. *)
Definition getRectFromLine (pt1 pt2 : Point) : QRectF.t C :=
  QRectF.mk (QPointF.x pt1) (QPointF.y pt1)
            (s_sub (QPointF.x pt2) (QPointF.x pt1))
            (s_sub (QPointF.y pt2) (QPointF.y pt1)).

(** [getCircleRectFromLine]: [None] is Python's [None]. *)
Definition getCircleRectFromLine (line : list Point) : option (QRectF.t C) :=
  match line with
  | [c; point] =>
      let r := QPointF.sub c point in
      let d := s_sqrt (s_add (pow2 (QPointF.x r)) (pow2 (QPointF.y r))) in
      Some (QRectF.mk (s_sub (QPointF.x c) d) (s_sub (QPointF.y c) d)
                      (s_mul (s_of_Z 2) d) (s_mul (s_of_Z 2) d))
  | _ => None
  end.

(** [makePath]. [self.points[0]] raises [IndexError] on an empty list;
    [addEllipse(None)] would raise [TypeError]. *)
Definition makePath (s : Shape C) : outcome (QPainterPath C) :=
  match shape_type s with
  | ShapeType.rectangle =>
      match points s with
      | [pt1; pt2] => Return [AddRect (getRectFromLine pt1 pt2)]
      | _ => Return []
      end
  | ShapeType.circle =>
      match points s with
      | [_; _] =>
          match getCircleRectFromLine (points s) with
          | Some rectangle => Return [AddEllipse rectangle]
          | None => Raise TypeError
          end
      | _ => Return []
      end
  | _ =>
      match points s with
      | [] => Raise IndexError
      | p0 :: ps => Return (MoveTo p0 :: (LineTo <$> ps))
      end
  end.

(** [containsPoint]. *)
Definition containsPoint (point : Point) (s : Shape C) : outcome bool :=
  match makePath s with
  | Return path => Return (path_contains path point)
  | Raise e => Raise e
  end.

(** [boundingRect]. *)
Definition boundingRect (s : Shape C) : outcome (QRectF.t C) :=
  match makePath s with
  | Return path => Return (path_boundingRect path)
  | Raise e => Raise e
  end.

End HitTesting.

(** ** Statements and shapes the properties refer to *)

(** What an index rejected by [insertPoint] would look like: the call
    raises [IndexError] and leaves [points] and the buffer as they were. *)
Definition insertPoint_rejects {C} `{Scalar C} (i : Z) (point : QPointF.t C)
    (s : Shape C) : Prop :=
  (insertPoint i point s).1 = Raise IndexError /\
  points (insertPoint i point s).2 = points s /\
  poly_array (insertPoint i point s).2 = poly_array s.

(** The editing operations as data, for statements about sequences of
    calls. *)
Inductive Edit (C : Type) : Type :=
| AddPoint (p : QPointF.t C)
| PopPoint
| InsertPoint (i : Z) (p : QPointF.t C)
| RemovePoint (i : Z)
| MoveBy (offset : QPointF.t C)
| MoveVertexBy (i : Z) (offset : QPointF.t C).
Arguments AddPoint {C} p.
Arguments PopPoint {C}.
Arguments InsertPoint {C} i p.
Arguments RemovePoint {C} i.
Arguments MoveBy {C} offset.
Arguments MoveVertexBy {C} i offset.

(** The shape after one call, whether the call returned or raised. *)
Definition run_edit {C} `{Scalar C} (e : Edit C) (s : Shape C) : Shape C :=
  match e with
  | AddPoint p => (addPoint p s).2
  | PopPoint => (popPoint s).2
  | InsertPoint i p => (insertPoint i p s).2
  | RemovePoint i => (removePoint i s).1.2
  | MoveBy offset => (moveBy offset s).2
  | MoveVertexBy i offset => (moveVertexBy i offset s).2
  end.

Definition run_edits {C} `{Scalar C} (es : list (Edit C)) (s : Shape C) : Shape C :=
  foldl (fun s e => run_edit e s) s es.

Definition is_insert {C} (e : Edit C) : bool :=
  match e with
  | InsertPoint _ _ => true
  | _ => false
  end.

(** The squared Euclidean distance from [point] to the vertex [p], as the
    specification words it. *)
Definition sq_distance {C} `{Scalar C} (point p : QPointF.t C) : C :=
  s_add (pow2 (s_sub (QPointF.x p) (QPointF.x point)))
        (pow2 (s_sub (QPointF.y p) (QPointF.y point))).

(** The Euclidean distance between two points of the real plane, and the
    centre of a rectangle, as the specification words them. *)
Definition euclidean_distance (p q : QPointF.t R) : R :=
  sqrt ((QPointF.x q - QPointF.x p) * (QPointF.x q - QPointF.x p) +
        (QPointF.y q - QPointF.y p) * (QPointF.y q - QPointF.y p))%R.

Definition center (r : QRectF.t R) : QPointF.t R :=
  QPointF.mk (QRectF.left r + QRectF.width r / 2)%R
             (QRectF.top r + QRectF.height r / 2)%R.

(** The edge an index names: edge [e] joins vertex [e - 1] to vertex [e],
    indices taken cyclically, so edge [0] (and edge [n]) is the closing
    edge from the last vertex to the first, and edge [-1] is the edge
    that ends at the last vertex. *)
Definition edge {C} (pa : list (row C)) (e : Z) : list (row C) :=
  let n := Z.of_nat (length pa) in
  match pa !! Z.to_nat ((e - 1) mod n), pa !! Z.to_nat (e mod n) with
  | Some a, Some b => [a; b]
  | _, _ => []
  end.

(** The index [nearestEdge] reports for the forward candidate [i]. *)
Definition forward_index (n i : Z) : Z :=
  if (i =? 0) || (i =? n) then i else i mod n.

(** A [distancetoline] that returns a distance for every line of two
    rows. *)
Definition returns_on_segments {C}
    (distancetoline : QPointF.t C -> list (row C) -> outcome C) : Prop :=
  forall p a b, exists d, distancetoline p [a; b] = Return d.

Section FirstMatch.
Context {C : Type} `{Scalar C}.
Variable distancetoline : QPointF.t C -> list (row C) -> outcome C.
Variable pa : list (row C).
Variable point : QPointF.t C.
Variable epsilon : C.
Variable m : Z.

(** [distancetoline] returns a distance for the line, and it is at most
    [epsilon]. *)
Definition within (line : list (row C)) : bool :=
  match distancetoline point line with
  | Return d => s_leb d epsilon
  | Raise _ => false
  end.

(** Edge [e] lies within [epsilon] of the query point. *)
Definition near (e : Z) : bool := within (edge pa e).

(** Step [k] of the search from [m] found nothing: neither the forward
    candidate [m + k] nor the backward candidate [m - k] is near (nothing
    is said of the backward candidate [-1]). *)
Definition missed (k : nat) : Prop :=
  near (m + Z.of_nat k) = false /\
  (m - Z.of_nat k <> -1 -> near (m - Z.of_nat k) = false).

(** What the search reports when it stops at step [k]: the forward
    candidate when it is near, else the backward one (of which, when it
    is [-1], nothing is said). *)
Definition found (k : nat) (e : Z) : Prop :=
  (near (m + Z.of_nat k) = true /\
   e = forward_index (Z.of_nat (length pa)) (m + Z.of_nat k)) \/
  (near (m + Z.of_nat k) = false /\ e = m - Z.of_nat k /\
   (m - Z.of_nat k <> -1 -> near (m - Z.of_nat k) = true)).

(** The result [r] is the first match of the steps [k0, k0 + len): the
    candidate of the first step that found something, [None] when every
    step missed; the search does not raise. *)
Definition first_match (k0 len : nat) (r : outcome (option Z)) : Prop :=
  match r with
  | Return None => forall k, (k0 <= k < k0 + len)%nat -> missed k
  | Return (Some e) =>
      exists k, (k0 <= k < k0 + len)%nat /\
        (forall k', (k0 <= k' < k)%nat -> missed k') /\ found k e
  | Raise _ => False
  end.

(** The segment the search measures for the backward candidate [j]: the
    edge [j] names, except for [j = -1], where it is rows 0 and 1 (the
    edge that index 1 names) and not the edge that ends at the last
    vertex. *)
Definition backward_segment (j : Z) : list (row C) :=
  if j =? -1 then slice pa None (Some 2) else edge pa j.

(** The search over the steps [ks], by the segments it measures: the
    candidate of the first step with a measured segment within
    [epsilon], the forward one before the backward one. *)
Fixpoint first_hit (ks : list nat) : option Z :=
  match ks with
  | [] => None
  | k :: rest =>
      if within (edge pa (m + Z.of_nat k)) then
        Some (forward_index (Z.of_nat (length pa)) (m + Z.of_nat k))
      else if within (backward_segment (m - Z.of_nat k)) then
        Some (m - Z.of_nat k)
      else first_hit rest
  end.

End FirstMatch.

(** Modelled from the spec: [labelme.utils.distancetoline], which is not
    among the sources; the specification has it compute the perpendicular
    point-to-segment distance. Over the reals: the distance to the nearer
    end when the foot of the perpendicular falls outside the segment, and
    the distance to the carrying line otherwise. The specification speaks
    of segments only: a line that is not two rows is given no distance
    here (the call raises), and no statement below hands one over. *)
Definition segment_distance (p : QPointF.t R) (line : list (row R)) : outcome R :=
  match line with
  | [a; b] =>
      let ux := (b.1 - a.1)%R in
      let uy := (b.2 - a.2)%R in
      let vx := (QPointF.x p - a.1)%R in
      let vy := (QPointF.y p - a.2)%R in
      let wx := (QPointF.x p - b.1)%R in
      let wy := (QPointF.y p - b.2)%R in
      Return
        (if Rlt_dec (vx * ux + vy * uy) 0 then sqrt (vx * vx + vy * vy)
         else if Rlt_dec 0 (wx * ux + wy * uy) then sqrt (wx * wx + wy * wy)
         else if Req_dec_T (ux * ux + uy * uy) 0 then 0%R
         else (Rabs (ux * vy - uy * vx) / sqrt (ux * ux + uy * uy))%R)
  | _ => Raise ValueError
  end.

(** The closed square of the specification's examples, over the reals,
    with nothing cached. *)
Definition RP (a b : R) : QPointF.t R := QPointF.mk a b.

Definition square_rows : list (row R) := [(0, 0); (10, 0); (10, 10); (0, 10)]%R.

Definition square_R : Shape R :=
  mkShape [RP 0 0; RP 10 0; RP 10 10; RP 0 10] (Some (Rows square_rows))
          true None ShapeType.polygon.

(** The three open points of the specification's example of closing a
    loop, with their buffer. *)
Definition three_points_R : Shape R :=
  mkShape [RP 0 0; RP 10 0; RP 10 10]
          (Some (Rows [(0, 0); (10, 0); (10, 10)]%R)) false None
          ShapeType.polygon.

(** A point that is not the first of these three, and is 1e-13 away from
    it. *)
Definition almost_origin : QPointF.t R := RP (1 / 10000000000000) 0.

Definition ZP (a b : Z) : QPointF.t Z := QPointF.mk a b.

(** Two points with their buffer. *)
Definition two_points : Shape Z :=
  mkShape [ZP 0 0; ZP 1 1] (Some (Rows [(0, 0); (1, 1)])) false None
          ShapeType.polygon.

(** The open square of the specification's examples, as four calls of
    [addPoint] build it. *)
Definition square_Z : Shape Z :=
  (addPoint (ZP 0 10) (addPoint (ZP 10 10) (addPoint (ZP 10 0)
    (addPoint (ZP 0 0) (init ShapeType.polygon)).2).2).2).2.

(** A new shape on which [init_poly_array] was called before any point
    was added. *)
Definition blank_with_buffer : Shape Z :=
  init_poly_array (init ShapeType.polygon).

(** ** The rest of the class *)

Section Access.
Context {C : Type} `{Scalar C}.

(** [setOpen]. *)
Definition setOpen (s : Shape C) : Shape C := set_closed false s.

(** [__len__]. *)
Definition __len__ (s : Shape C) : Z := Z.of_nat (length (points s)).

(** [__getitem__], for an integer key. *)
Definition __getitem__ (key : Z) (s : Shape C) : outcome (QPointF.t C) :=
  match index (points s) key with
  | Some p => Return p
  | None => Raise IndexError
  end.

(** [__setitem__], for an integer key: [points] alone is written. *)
Definition __setitem__ (key : Z) (value : QPointF.t C) (s : Shape C)
  : outcome unit * Shape C :=
  match update (points s) key (fun _ => value) with
  | Some pts => (Return (), set_points pts s)
  | None => (Raise IndexError, s)
  end.

End Access.

(** *** Painting *)

(** [P_SQUARE] and [P_ROUND]. *)
Inductive PointType : Set := P_SQUARE | P_ROUND.

(** [MOVE_VERTEX] and [NEAR_VERTEX]. *)
Inductive HighlightMode : Set := MOVE_VERTEX | NEAR_VERTEX.

(** The attributes of a shape that only painting reads: the class
    attributes [scale], [point_size] and [point_type], the flags [fill]
    and [selected], and the highlight state. *)
Record Rendering (C : Type) : Type := mkRendering {
  scale : C;
  point_size : C;
  point_type : PointType;
  fill : bool;
  selected : bool;
  _highlightIndex : option Z;
  _highlightMode : HighlightMode
}.
Arguments mkRendering {C} scale point_size point_type fill selected
  _highlightIndex _highlightMode.
Arguments scale {C} _.
Arguments point_size {C} _.
Arguments point_type {C} _.
Arguments fill {C} _.
Arguments selected {C} _.
Arguments _highlightIndex {C} _.
Arguments _highlightMode {C} _.

(** [highlightVertex]. *)
Definition highlightVertex {C} (i : Z) (action : HighlightMode)
    (v : Rendering C) : Rendering C :=
  mkRendering (scale v) (point_size v) (point_type v) (fill v) (selected v)
              (Some i) action.

(** [highlightClear]. *)
Definition highlightClear {C} (v : Rendering C) : Rendering C :=
  mkRendering (scale v) (point_size v) (point_type v) (fill v) (selected v)
              None (_highlightMode v).

(** [_highlightSettings]: the size factor and the handle of each mode. *)
Definition _highlightSettings (mode : HighlightMode) : Z * PointType :=
  match mode with
  | NEAR_VERTEX => (5, P_ROUND)
  | MOVE_VERTEX => (4, P_SQUARE)
  end.

(** What [drawVertex] adds to the vertex path: [addRect(x, y, w, h)] or
    [addEllipse(center, rx, ry)]. *)
Inductive VertexMark (C : Type) : Type :=
| SquareMark (r : QRectF.t C)
| RoundMark (center : QPointF.t C) (rx ry : C).
Arguments SquareMark {C} r.
Arguments RoundMark {C} center rx ry.

(** What [paint] hands to the painter: the two paths it draws, whether
    the vertex path is filled with the highlight colour
    ([_vertex_fill_color] as the last [drawVertex] left it), and whether
    the line path is filled. Pen and colours are not part of it. *)
Record Drawing (C : Type) : Type := mkDrawing {
  line_path : QPainterPath C;
  vrtx_path : list (VertexMark C);
  vertex_fill_highlighted : bool;
  line_path_filled : bool
}.
Arguments mkDrawing {C} line_path vrtx_path vertex_fill_highlighted
  line_path_filled.
Arguments line_path {C} _.
Arguments vrtx_path {C} _.
Arguments vertex_fill_highlighted {C} _.
Arguments line_path_filled {C} _.

(** How a call of [paint] ends: nothing is done on a shape without
    points; an [assert] of the rectangle and circle branches fails; an
    exception is raised; or the paths are drawn. *)
Inductive Painted (C : Type) : Type :=
| NothingToPaint
| AssertionError
| Raised (e : exn)
| Drawn (d : Drawing C).
Arguments NothingToPaint {C}.
Arguments AssertionError {C}.
Arguments Raised {C} e.
Arguments Drawn {C} d.

Section Painting.
Context {C : Type} `{Scalar C}.

(** The [/] of the coordinate type, for a divisor that is not zero. *)
Variable s_div : C -> C -> C.

(** [drawVertex(path, i)]: the mark added to [path]. The division by
    [self.scale * 2] comes first and raises [ZeroDivisionError] on a zero
    divisor; [d / 2] divides by the literal. [i == self._highlightIndex]
    compares the index as it is given. *)
Definition drawVertex (v : Rendering C) (i : Z) (s : Shape C)
  : outcome (VertexMark C) :=
  let divisor := s_mul (scale v) (s_of_Z 2) in
  if bool_decide (divisor = s_of_Z 0) then Raise ZeroDivisionError
  else
    let d := s_div (point_size v) divisor in
    let shape := point_type v in
    match index (points s) i with
    | None => Raise IndexError
    | Some point =>
        let '(d, shape) :=
          if bool_decide (Some i = _highlightIndex v) then
            let '(size, shape) := _highlightSettings (_highlightMode v) in
            (s_mul d (s_of_Z size), shape)
          else (d, shape) in
        match shape with
        | P_SQUARE =>
            Return (SquareMark
              (QRectF.mk (s_sub (QPointF.x point) (s_div d (s_of_Z 2)))
                         (s_sub (QPointF.y point) (s_div d (s_of_Z 2))) d d))
        | P_ROUND => Return (RoundMark point d d)
        end
    end.

(** [for i in range(len(self.points)): self.drawVertex(vrtx_path, i)],
    the loop of every branch of [paint]. *)
Fixpoint drawVertices (v : Rendering C) (s : Shape C) (indices : list Z)
  : outcome (list (VertexMark C)) :=
  match indices with
  | [] => Return []
  | i :: rest =>
      match drawVertex v i s with
      | Raise e => Raise e
      | Return mark =>
          match drawVertices v s rest with
          | Raise e => Raise e
          | Return marks => Return (mark :: marks)
          end
      end
  end.

(** The end of [paint], once the line path is built and the vertices are
    drawn. *)
Definition finish_paint (v : Rendering C) (line : QPainterPath C)
    (marks : outcome (list (VertexMark C))) : Painted C :=
  match marks with
  | Raise e => Raised e
  | Return vrtx =>
      Drawn (mkDrawing line vrtx (bool_decide (_highlightIndex v <> None))
                       (fill v))
  end.

(** [paint]: how the call ends and the shape afterwards. On a shape with
    points the pen width [max(1, int(round(2.0 / self.scale)))] is
    computed first: the division raises [ZeroDivisionError] when [scale]
    is zero, before anything else is done. The default branch rebuilds
    the buffer ([init_poly_array]); [x_span] and [y_span], which it also
    writes and nothing in the class reads, are not attributes of the
    record. *)
Definition paint (v : Rendering C) (s : Shape C) : Painted C * Shape C :=
  match points s with
  | [] => (NothingToPaint, s)
  | p0 :: _ =>
      if bool_decide (scale v = s_of_Z 0) then (Raised ZeroDivisionError, s)
      else
      let n := length (points s) in
      let indices := range_up 0 n in
      match shape_type s with
      | ShapeType.rectangle =>
          if bool_decide (n ∈ [1; 2]%nat) then
            let line :=
              match points s with
              | [pt1; pt2] => [AddRect (getRectFromLine pt1 pt2)]
              | _ => []
              end in
            (finish_paint v line (drawVertices v s indices), s)
          else (AssertionError, s)
      | ShapeType.circle =>
          if bool_decide (n ∈ [1; 2]%nat) then
            match points s with
            | [_; _] =>
                match getCircleRectFromLine (points s) with
                | Some rectangle =>
                    (finish_paint v [AddEllipse rectangle]
                                  (drawVertices v s indices), s)
                | None => (Raised TypeError, s)
                end
            | _ => (finish_paint v [] (drawVertices v s indices), s)
            end
          else (AssertionError, s)
      | ShapeType.linestrip =>
          (finish_paint v (MoveTo p0 :: (LineTo <$> points s))
                        (drawVertices v s indices), s)
      | _ =>
          let s1 := init_poly_array s in
          let line :=
            MoveTo p0 :: (LineTo <$> points s1) ++
              (if isClosed s1 then [LineTo p0] else []) in
          (finish_paint v line (drawVertices v s1 indices), s1)
      end
  end.

(** The rendering attributes with which no division of [paint] and
    [drawVertex] is by zero. *)
Definition divides (v : Rendering C) : Prop :=
  scale v <> s_of_Z 0 /\ s_mul (scale v) (s_of_Z 2) <> s_of_Z 0.

End Painting.

(** *** Values for running the rest of the class *)

(** A stand-in for [distancetoline] over the integers, to run the edge
    search on: the taxicab distance from the point to the end of the
    line. *)
Definition end_distance (p : QPointF.t Z) (line : list (row Z)) : outcome Z :=
  match line with
  | [_; b] => Return (Z.abs (b.1 - QPointF.x p) + Z.abs (b.2 - QPointF.y p))
  | _ => Raise ValueError
  end.

(** The class defaults: scale 1, point size 8, round handles, no fill,
    no selection, no highlight. *)
Definition default_rendering : Rendering Z :=
  mkRendering 1 8 P_ROUND false false None NEAR_VERTEX.

(** The class defaults with the scale set to 0. *)
Definition zero_scale_rendering : Rendering Z :=
  mkRendering 0 8 P_ROUND false false None NEAR_VERTEX.

(** A rectangle shape with its two corners. *)
Definition rectangle_Z : Shape Z :=
  mkShape [ZP 0 0; ZP 10 5] (Some (Rows [(0, 0); (10, 5)])) false None
          ShapeType.rectangle.

(** * Properties *)

(** ** Python sequences *)

Section PyFacts.
Context {A : Type}.
Implicit Types (l : list A) (i : Z) (n k : nat).

Lemma norm_index_nonneg n i :
  0 <= i < Z.of_nat n -> norm_index n i = Some (Z.to_nat i).
Proof.
  intros [H0 H1]. unfold norm_index.
  destruct (Z.leb_spec 0 i); [|lia].
  destruct (Z.ltb_spec i (Z.of_nat n)); [done|lia].
Qed.

Lemma norm_index_neg n i :
  - Z.of_nat n <= i < 0 -> norm_index n i = Some (Z.to_nat (Z.of_nat n + i)).
Proof.
  intros [H0 H1]. unfold norm_index.
  destruct (Z.leb_spec 0 i); [lia|].
  destruct (Z.leb_spec (- Z.of_nat n) i); [done|lia].
Qed.

Lemma norm_index_None n i :
  norm_index n i = None <-> (Z.of_nat n <= i \/ i < - Z.of_nat n).
Proof.
  unfold norm_index.
  destruct (Z.leb_spec 0 i).
  - destruct (Z.ltb_spec i (Z.of_nat n)); split; try done; lia.
  - destruct (Z.leb_spec (- Z.of_nat n) i); split; try done; lia.
Qed.

(** An index in [-n, n] converts to a machine index. *)
Lemma index_fits_inside n i :
  - Z.of_nat n <= i <= Z.of_nat n -> index_fits n i = true.
Proof.
  intros Hi. unfold index_fits. apply orb_true_iff. right.
  apply andb_true_intro. split; apply Z.leb_le; lia.
Qed.

Lemma index_fits_ssize_t n i : fits_ssize_t i = true -> index_fits n i = true.
Proof. intros Hi. unfold index_fits. by rewrite Hi. Qed.

(** On a list as long as a Python list can be, the index converts when
    it is a machine index. *)
Lemma index_fits_bounded n i :
  Z.of_nat n < 2 ^ 63 -> index_fits n i = fits_ssize_t i.
Proof.
  intros Hn. unfold index_fits, fits_ssize_t.
  destruct (Z.leb_spec (- 2 ^ 63) i), (Z.leb_spec i (2 ^ 63 - 1)),
    (Z.leb_spec (- Z.of_nat n) i), (Z.leb_spec i (Z.of_nat n)); cbn; try done; lia.
Qed.

Lemma pop_in_range l i k :
  norm_index (length l) i = Some k -> pop l i = Return (delete k l).
Proof. intros Hk. unfold pop. by rewrite Hk. Qed.

Lemma pop_out_of_range l i :
  (Z.of_nat (length l) <= i \/ i < - Z.of_nat (length l)) ->
  pop l i = if index_fits (length l) i then Raise IndexError
            else Raise OverflowError.
Proof. intros Hi. unfold pop. by rewrite (proj2 (norm_index_None _ _) Hi). Qed.

Lemma update_fmap {B} (f : A -> B) (g : A -> A) (g' : B -> B) l i :
  (forall a, f (g a) = g' (f a)) ->
  update (f <$> l) i g' = fmap (M:=list) f <$> update l i g.
Proof.
  intros Hfg. unfold update. rewrite length_fmap.
  destruct (norm_index (length l) i) as [k|]; simpl; [|done].
  rewrite list_lookup_fmap.
  destruct (l !! k) as [a|]; simpl; [|done].
  by rewrite list_fmap_insert, Hfg.
Qed.

Lemma insert_at_length i (a : A) l : length (insert_at i a l) = S (length l).
Proof.
  unfold insert_at. rewrite length_app. simpl.
  rewrite length_take, length_drop. lia.
Qed.

Lemma clamp_index_inside n i :
  0 <= i <= Z.of_nat n -> clamp_index n i = Z.to_nat i.
Proof. intros. unfold clamp_index. destruct (Z.ltb_spec i 0); lia. Qed.

Lemma insert_fits i (a : A) l :
  index_fits (length l) i = true -> insert i a l = Return (insert_at i a l).
Proof. intros Hi. unfold insert. by rewrite Hi. Qed.

(** Removing what was just inserted, at an index inside [0, len]. *)
Lemma pop_insert_at i (a : A) l :
  0 <= i <= Z.of_nat (length l) -> pop (insert_at i a l) i = Return l.
Proof.
  intros Hi. unfold pop. rewrite insert_at_length.
  rewrite norm_index_nonneg by lia. f_equal.
  unfold insert_at. rewrite clamp_index_inside by done.
  set (k := Z.to_nat i).
  assert (Hk : (k <= length l)%nat) by lia.
  rewrite delete_take_drop.
  rewrite take_app_length' by (rewrite length_take; lia).
  replace (S k) with (length (take k l) + 1)%nat by (rewrite length_take; lia).
  rewrite drop_app_add'; [|done]. simpl. rewrite drop_0.
  apply take_drop.
Qed.

End PyFacts.

(** ** Point and coordinate buffer management *)

Lemma slice_init {A} (l : list A) : slice l None (Some (-1)) = removelast l.
Proof.
  unfold slice. cbn [from_option]. rewrite drop_0, Nat.sub_0_r.
  replace (clamp_index (length l) (-1)) with (length l - 1)%nat
    by (unfold clamp_index; destruct (Z.ltb_spec (-1) 0); lia).
  destruct l as [|a l] using rev_ind; [done|].
  rewrite removelast_last, length_app. simpl.
  rewrite take_app_length'; [done|lia].
Qed.

Lemma removelast_fmap {A B} (f : A -> B) (l : list A) :
  removelast (f <$> l) = f <$> removelast l.
Proof.
  destruct l as [|a l] using rev_ind; [done|].
  rewrite fmap_app. change (f <$> [a]) with [f a].
  by rewrite !removelast_last.
Qed.

Lemma np_delete_rows {C} (pts : list (QPointF.t C)) (i : Z) (k : nat) :
  norm_index (length pts) i = Some k ->
  np_delete (Rows (row_of <$> pts)) i = Some (Rows (row_of <$> delete k pts)).
Proof.
  intros Hk. unfold np_delete. rewrite length_fmap, Hk. cbn.
  by rewrite list_fmap_delete.
Qed.

Section EditingFacts.
Context {C : Type} `{Scalar C}.
Implicit Types (s : Shape C) (p point offset : QPointF.t C) (i : Z).

Lemma np_array_snoc (pts : list (QPointF.t C)) p :
  np_array (pts ++ [p]) = Rows (row_of <$> pts ++ [p]).
Proof. unfold np_array. by destruct pts. Qed.

(** What [addPoint] does when it does not close the shape. *)
Lemma addPoint_appends point s :
  equals_first point s = false ->
  addPoint point s =
    match poly_array s with
    | None =>
        (Return (),
         mkShape (points s ++ [point])
                 (Some (Rows (row_of <$> points s ++ [point])))
                 (_closed s) (prev_val s) (shape_type s))
    | Some (Rows pa) =>
        (Return (),
         mkShape (points s ++ [point]) (Some (Rows (pa ++ [row_of point])))
                 (_closed s) (prev_val s) (shape_type s))
    | Some Empty1D => (Raise ValueError, set_points (points s ++ [point]) s)
    end.
Proof.
  intros Hno. unfold addPoint. rewrite Hno.
  cbn [poly_array set_points].
  destruct (poly_array s) as [[|pa]|]; [done|done|].
  unfold init_poly_array. cbn [points set_points]. by rewrite np_array_snoc.
Qed.

(** The operations that write the buffer back keep it in step with
    [points]. *)
Lemma addPoint_consistent point s :
  consistent s -> consistent (addPoint point s).2.
Proof.
  unfold consistent. intros Hc.
  destruct (equals_first point s) eqn:E.
  - unfold addPoint. by rewrite E.
  - rewrite (addPoint_appends _ _ E), Hc. cbn. by rewrite fmap_app.
Qed.

Lemma popPoint_consistent s : consistent s -> consistent (popPoint s).2.
Proof.
  unfold consistent, popPoint. intros Hc.
  destruct (points s) as [|p ps] eqn:Hp; [by rewrite <- Hp in Hc|].
  rewrite Hc. cbn [snd poly_array points set_points set_poly_array np_slice].
  by rewrite Hp, slice_init, removelast_fmap.
Qed.

Lemma removePoint_consistent i s :
  consistent s -> consistent (removePoint i s).1.2.
Proof.
  unfold consistent, removePoint, pop. intros Hc.
  destruct (norm_index (length (points s)) i) as [k|] eqn:Hk.
  - cbn [poly_array set_points]. rewrite Hc. cbn [mbind option_bind].
    by rewrite (np_delete_rows _ _ _ Hk).
  - by destruct (index_fits _ _).
Qed.

Lemma moveBy_consistent offset s : consistent s -> consistent (moveBy offset s).2.
Proof.
  unfold consistent, moveBy. intros Hc. simpl. rewrite Hc. simpl. do 2 f_equal.
  rewrite <- !list_fmap_compose. by apply list_fmap_ext.
Qed.

Lemma moveVertexBy_consistent i offset s :
  consistent s -> consistent (moveVertexBy i offset s).2.
Proof.
  unfold consistent, moveVertexBy. intros Hc.
  destruct (update (points s) i _) as [pts|] eqn:Hp; [|done].
  simpl. rewrite Hc.
  cbn [snd poly_array points set_points set_poly_array].
  rewrite (update_fmap row_of (fun p => QPointF.add p offset)) by done.
  by rewrite Hp.
Qed.

(** C7, as amended: an index [i >= n] or [i < -n] that is a machine
    index makes [removePoint] log its warning and leave the shape, points
    and buffer, exactly as it was; one that is not (the list having fewer
    than [2 ^ 63] elements, as every Python list has) makes [points.pop]
    raise [OverflowError], which [removePoint] does not catch: nothing is
    logged and the shape is as it was. *)
Theorem removePoint_out_of_range i s :
  (Z.of_nat (length (points s)) <= i \/ i < - Z.of_nat (length (points s))) ->
  (fits_ssize_t i = true ->
     removePoint i s = (Return (), s, [index_warning i])) /\
  (fits_ssize_t i = false -> Z.of_nat (length (points s)) < 2 ^ 63 ->
     removePoint i s = (Raise OverflowError, s, [])).
Proof.
  intros Hi. unfold removePoint. rewrite (pop_out_of_range _ _ Hi). split.
  - intros Hfit. by rewrite (index_fits_ssize_t _ _ Hfit).
  - intros Hfit Hn. by rewrite (index_fits_bounded _ _ Hn), Hfit.
Qed.

(** C9: on a consistent shape of [n] points a negative index
    [-n <= i <= -1] removes element [n + i] of [points] and of the buffer
    and logs nothing; the warning is logged only for indices [>= n] or
    [< -n], and (the list having fewer than [2 ^ 63] elements) exactly
    for those of them that are machine indices. *)
Theorem removePoint_negative_index i s :
  consistent s ->
  (- Z.of_nat (length (points s)) <= i <= -1 ->
     let k := Z.to_nat (Z.of_nat (length (points s)) + i) in
     removePoint i s =
       (Return (),
        mkShape (delete k (points s))
                (Some (Rows (delete k (row_of <$> points s))))
                (_closed s) (prev_val s) (shape_type s), [])) /\
  (forall j, (removePoint j s).2 <> [] ->
     Z.of_nat (length (points s)) <= j \/ j < - Z.of_nat (length (points s))) /\
  (Z.of_nat (length (points s)) < 2 ^ 63 ->
   forall j, (removePoint j s).2 <> [] <->
     ((Z.of_nat (length (points s)) <= j \/ j < - Z.of_nat (length (points s))) /\
      fits_ssize_t j = true)).
Proof.
  intros Hc.
  assert (Hlog : forall j, (removePoint j s).2 <> [] <->
            (norm_index (length (points s)) j = None /\
             index_fits (length (points s)) j = true)).
  { intros j. unfold removePoint, pop.
    destruct (norm_index (length (points s)) j) as [k|] eqn:Hk.
    - cbn [poly_array set_points]. rewrite Hc. cbn [mbind option_bind].
      rewrite (np_delete_rows _ _ k Hk). cbn. split; [done|]. by intros [? _].
    - destruct (index_fits _ _); cbn; split; try done. by intros [_ ?]. }
  split; [|split].
  - intros Hi k. unfold removePoint.
    rewrite (pop_in_range _ _ k) by (apply norm_index_neg; lia).
    cbn [poly_array set_points]. rewrite Hc. cbn [mbind option_bind].
    rewrite (np_delete_rows _ _ k) by (apply norm_index_neg; lia).
    by rewrite list_fmap_delete.
  - intros j. rewrite <- norm_index_None. by apply Hlog.
  - intros Hn j. rewrite <- (index_fits_bounded _ _ Hn), <- norm_index_None.
    apply Hlog.
Qed.

(** Every editing operation other than [insertPoint] keeps the buffer
    consistent with [points], so after each call of any sequence of them,
    whether the call returned or raised, the buffer is the array of rows
    with one row per point, row [i] holding point [i]. *)
Theorem edits_without_insert_keep_consistency (es : list (Edit C)) s :
  consistent s ->
  Forall (fun e => is_insert e = false) es ->
  forall k : nat, consistent (run_edits (take k es) s).
Proof.
  intros Hc Hes k. revert s Hc k.
  induction Hes as [|e es He Hes IH]; intros s Hc k.
  - by rewrite take_nil.
  - destruct k as [|k]; [done|]. cbn [take run_edits foldl].
    apply IH. destruct e; cbn [run_edit].
    + by apply addPoint_consistent.
    + by apply popPoint_consistent.
    + done.
    + by apply removePoint_consistent.
    + by apply moveBy_consistent.
    + by apply moveVertexBy_consistent.
Qed.

Lemma insertPoint_state i point s :
  index_fits (length (points s)) i = true ->
  (insertPoint i point s).2 = set_points (insert_at i point (points s)) s.
Proof.
  intros Hi. unfold insertPoint. rewrite (insert_fits _ _ _ Hi).
  by destruct (np_insert_returns _ _).
Qed.

Lemma insertPoint_overflow i point s :
  index_fits (length (points s)) i = false ->
  insertPoint i point s = (Raise OverflowError, s).
Proof. intros Hi. unfold insertPoint, insert. by rewrite Hi. Qed.

(** C1 (where the code departs from it): on a consistent shape of [n]
    points and an index [0 <= i <= n], [insertPoint] returns normally with
    [n + 1] points and the buffer it started with, [n] rows: the shape is
    no longer consistent. *)
Theorem insertPoint_leaves_buffer_behind i point s :
  consistent s ->
  0 <= i <= Z.of_nat (length (points s)) ->
  (insertPoint i point s).1 = Return () /\
  length (points (insertPoint i point s).2) = S (length (points s)) /\
  poly_array (insertPoint i point s).2 = poly_array s /\
  ~ consistent (insertPoint i point s).2.
Proof.
  intros Hc Hi.
  assert (Hfit : index_fits (length (points s)) i = true)
    by (apply index_fits_inside; lia).
  assert (Hret : np_insert_returns (poly_array s) i = true).
  { unfold np_insert_returns. rewrite Hc. cbn [np_rows]. rewrite length_fmap.
    apply andb_true_intro. split; [apply Z.leb_le|apply Z.leb_le]; lia. }
  split; [|split; [|split]].
  - unfold insertPoint. rewrite (insert_fits _ _ _ Hfit).
    cbn [poly_array set_points]. by rewrite Hret.
  - rewrite insertPoint_state by done. cbn [points set_points].
    apply insert_at_length.
  - by rewrite insertPoint_state.
  - rewrite insertPoint_state by done. unfold consistent.
    cbn [points poly_array set_points]. rewrite Hc. intros [= Heq].
    apply (f_equal length) in Heq.
    rewrite !length_fmap, insert_at_length in Heq. lia.
Qed.

(** C2, as amended: an index outside [0, n] is not rejected before
    [points] changes. When the index is a machine index the point list
    receives the point at the clamped position, the end for [i > n] and
    [max(0, n + i)] for [i < 0], and has [n + 1] elements when the call
    ends, however it ends. When it is not (the list having fewer than
    [2 ^ 63] elements, as every Python list has), [points.insert] raises
    [OverflowError] and the shape is as it was. *)
Theorem insertPoint_out_of_range_clamps i point s :
  (i < 0 \/ Z.of_nat (length (points s)) < i) ->
  (fits_ssize_t i = true ->
     length (points (insertPoint i point s).2) = S (length (points s)) /\
     (Z.of_nat (length (points s)) < i ->
        points (insertPoint i point s).2 = points s ++ [point]) /\
     (i < 0 ->
        let k := Z.to_nat (Z.max 0 (Z.of_nat (length (points s)) + i)) in
        points (insertPoint i point s).2 =
          take k (points s) ++ point :: drop k (points s))) /\
  (fits_ssize_t i = false -> Z.of_nat (length (points s)) < 2 ^ 63 ->
     insertPoint i point s = (Raise OverflowError, s)).
Proof.
  intros Hi. split.
  2: { intros Hfit Hn. apply insertPoint_overflow.
       by rewrite (index_fits_bounded _ _ Hn). }
  intros Hfit. apply (index_fits_ssize_t (length (points s))) in Hfit.
  rewrite insertPoint_state by done. cbn [points set_points].
  split; [apply insert_at_length|split].
  - intros Hgt. unfold insert_at, clamp_index.
    destruct (Z.ltb_spec i 0); [lia|].
    rewrite Z.min_r, Nat2Z.id by lia.
    by rewrite take_ge, drop_ge by lia.
  - intros Hneg. cbv zeta. unfold insert_at, clamp_index.
    destruct (Z.ltb_spec i 0); [done|lia].
Qed.

(** C3 (where the code departs from it): [insertPoint(i, p)] followed by
    [removePoint(i)] restores [points]; since the insertion left the
    buffer alone, the removal takes row [i] out of it when [i < n], and
    only for [i = n] does the buffer come back as it was (the removal
    then fails on the buffer and is logged). *)
Theorem insert_then_remove_drops_row i point s :
  consistent s ->
  0 <= i <= Z.of_nat (length (points s)) ->
  let s2 := (removePoint i (insertPoint i point s).2).1.2 in
  points s2 = points s /\
  (i < Z.of_nat (length (points s)) ->
     poly_array s2 = Some (Rows (delete (Z.to_nat i) (row_of <$> points s))) /\
     poly_array s2 <> poly_array s) /\
  (i = Z.of_nat (length (points s)) -> s2 = s).
Proof.
  intros Hc Hi s2. subst s2.
  rewrite insertPoint_state by (apply index_fits_inside; lia).
  unfold removePoint. cbn [points set_points].
  rewrite pop_insert_at by done. cbn [poly_array set_points].
  rewrite Hc. cbn [mbind option_bind].
  destruct (Z.eq_dec i (Z.of_nat (length (points s)))) as [->|Hne].
  - unfold np_delete.
    rewrite (proj2 (norm_index_None _ _)) by (rewrite length_fmap; lia).
    cbn [mbind option_bind fst snd points]. split; [done|]. split; [lia|].
    intros _. destruct s. unfold set_points. cbn in *. by rewrite Hc.
  - unfold np_delete. rewrite length_fmap, norm_index_nonneg by lia.
    cbn [mbind option_bind fst snd points poly_array set_points set_poly_array].
    split; [done|]. split; [|lia].
    intros _. split; [done|].
    intros [= Heq]. apply (f_equal length) in Heq.
    rewrite length_delete in Heq.
    + rewrite length_fmap in Heq. lia.
    + apply lookup_lt_is_Some. rewrite length_fmap. lia.
Qed.

End EditingFacts.

(** C5, as amended: [addPoint(p)] on a non-empty shape whose first point
    compares equal to [p] under the [==] of the point type marks the
    shape closed and changes neither [points] nor the buffer; in every
    other case it appends [p] to [points] and, the buffer being missing
    or an array of rows, the row of [p] to the buffer, a missing buffer
    being built from the whole point list. From the open points (0,0),
    (10,0), (10,10), [addPoint((0,0))] gives a closed shape that still
    has 3 points. *)
Theorem addPoint_closes_or_appends :
  (forall (C : Type) (HS : Scalar C) (point : QPointF.t C) (s : Shape C),
     (equals_first point s = true ->
        addPoint point s = (Return (), set_closed true s) /\
        length (points (addPoint point s).2) = length (points s)) /\
     (equals_first point s = false ->
        points (addPoint point s).2 = points s ++ [point] /\
        (poly_array s = None ->
           addPoint point s =
             (Return (),
              mkShape (points s ++ [point])
                      (Some (Rows (row_of <$> points s ++ [point])))
                      (_closed s) (prev_val s) (shape_type s))) /\
        (forall pa, poly_array s = Some (Rows pa) ->
           addPoint point s =
             (Return (),
              mkShape (points s ++ [point]) (Some (Rows (pa ++ [row_of point])))
                      (_closed s) (prev_val s) (shape_type s))))) /\
  (forall pa pv st,
     let s0 := mkShape [RP 0 0; RP 10 0; RP 10 10] pa false pv st in
     equals_first (RP 0 0) s0 = true /\
     _closed (addPoint (RP 0 0) s0).2 = true /\
     length (points (addPoint (RP 0 0) s0).2) = 3%nat).
Proof.
  split.
  - intros C HS point s. split.
    + intros Heq. unfold addPoint. by rewrite Heq.
    + intros Hno. rewrite (addPoint_appends _ _ Hno). split_and!.
      * by destruct (poly_array s) as [[|pa]|].
      * by intros ->.
      * by intros pa ->.
  - intros pa pv st s0.
    assert (Heq : equals_first (RP 0 0) s0 = true).
    { unfold equals_first, s0, QPointF.eqb, fuzzy_tolerance. cbn.
      replace (0 - 0)%R with 0%R by ring. rewrite Rabs_R0.
      unfold fuzzy_tolerance.
      destruct (Rle_dec 0 (1 / 1000000000000)); [done|exfalso; lra]. }
    split; [exact Heq|]. unfold addPoint. by rewrite Heq.
Qed.

(** *** The editing properties at concrete shapes *)

(** C5, as stated, fails. The point (1e-13, 0) is not equal to the first
    point (0, 0) of the three open points, yet [addPoint] closes the
    shape with it and does not append it: [==] on points is Qt's, with
    its tolerance. And on a shape whose buffer [init_poly_array] built
    before any point was added, [addPoint] appends the point to [points]
    and then raises [ValueError]: no row is appended. *)
Lemma addPoint_not_exact_equality :
  almost_origin <> RP 0 0 /\
  head (points three_points_R) = Some (RP 0 0) /\
  addPoint almost_origin three_points_R =
    (Return (), set_closed true three_points_R) /\
  points (addPoint almost_origin three_points_R).2 <>
    points three_points_R ++ [almost_origin] /\
  points blank_with_buffer = [] /\
  poly_array blank_with_buffer = Some Empty1D /\
  addPoint (ZP 5 5) blank_with_buffer =
    (Raise ValueError,
     mkShape [ZP 5 5] (Some Empty1D) false None ShapeType.polygon).
Proof.
  assert (Hne : almost_origin <> RP 0 0).
  { unfold almost_origin, RP. intros [= E]. lra. }
  assert (Heq : equals_first almost_origin three_points_R = true).
  { unfold equals_first, three_points_R, almost_origin, RP, QPointF.eqb. cbn.
    unfold fuzzy_tolerance.
    replace (0 - 0)%R with 0%R by ring. rewrite Rabs_R0.
    rewrite Rabs_right by lra.
    destruct (Rle_dec _ _) as [_|Hn]; [|exfalso; lra].
    destruct (Rle_dec _ _) as [_|Hn]; [done|exfalso; lra]. }
  split; [exact Hne|]. split; [reflexivity|].
  unfold addPoint. rewrite Heq. cbn [fst snd].
  split; [reflexivity|]. split; [discriminate|].
  split; [reflexivity|]. split; reflexivity.
Qed.

Lemma addPoint_closes_or_appends_witness :
  (equals_first (ZP 0 0) two_points = true /\
   addPoint (ZP 0 0) two_points = (Return (), set_closed true two_points)) /\
  (equals_first (ZP 5 5) two_points = false /\
   poly_array two_points = Some (Rows [(0, 0); (1, 1)]) /\
   addPoint (ZP 5 5) two_points =
     (Return (),
      mkShape [ZP 0 0; ZP 1 1; ZP 5 5] (Some (Rows [(0, 0); (1, 1); (5, 5)]))
              false None ShapeType.polygon)) /\
  (equals_first (ZP 5 5) (init ShapeType.polygon) = false /\
   poly_array (init (C:=Z) ShapeType.polygon) = None /\
   addPoint (ZP 5 5) (init ShapeType.polygon) =
     (Return (),
      mkShape [ZP 5 5] (Some (Rows [(5, 5)])) false None ShapeType.polygon)).
Proof.
  split; [|split].
  - split; [reflexivity|].
    exact (proj1 (proj1 (proj1 addPoint_closes_or_appends Z Z_Scalar (ZP 0 0)
                           two_points) eq_refl)).
  - split; [reflexivity|]. split; [reflexivity|].
    exact (proj2 (proj2 (proj2 (proj1 addPoint_closes_or_appends Z Z_Scalar
                                  (ZP 5 5) two_points) eq_refl))
             [(0, 0); (1, 1)] eq_refl).
  - split; [reflexivity|]. split; [reflexivity|].
    exact (proj1 (proj2 (proj2 (proj1 addPoint_closes_or_appends Z Z_Scalar
                                  (ZP 5 5) (init ShapeType.polygon)) eq_refl))
             eq_refl).
Defined.

Lemma edits_without_insert_keep_consistency_witness :
  consistent two_points /\
  Forall (fun e => is_insert e = false)
    [AddPoint (ZP 5 5); MoveBy (ZP 1 2); RemovePoint (-1);
     MoveVertexBy 1 (ZP 3 3); PopPoint; RemovePoint 7] /\
  run_edits
    [AddPoint (ZP 5 5); MoveBy (ZP 1 2); RemovePoint (-1);
     MoveVertexBy 1 (ZP 3 3); PopPoint; RemovePoint 7] two_points =
    mkShape [ZP 1 2] (Some (Rows [(1, 2)])) false None ShapeType.polygon /\
  consistent
    (run_edits
       (take 4 [AddPoint (ZP 5 5); MoveBy (ZP 1 2); RemovePoint (-1);
                MoveVertexBy 1 (ZP 3 3); PopPoint; RemovePoint 7]) two_points).
Proof.
  assert (Hc : consistent two_points) by reflexivity.
  assert (Hes : Forall (fun e : Edit Z => is_insert e = false)
    [AddPoint (ZP 5 5); MoveBy (ZP 1 2); RemovePoint (-1);
     MoveVertexBy 1 (ZP 3 3); PopPoint; RemovePoint 7])
    by (repeat constructor).
  split; [exact Hc|]. split; [exact Hes|]. split; [reflexivity|].
  exact (edits_without_insert_keep_consistency _ two_points Hc Hes 4%nat).
Defined.

(** C7, as stated, fails: with 2 points the index [2 ^ 63] is out of
    range, yet [removePoint] logs nothing: [points.pop] raises
    [OverflowError], which is not an [IndexError] and leaves the
    method. *)
Lemma removePoint_overflow_escapes :
  consistent two_points /\
  Z.of_nat (length (points two_points)) <= 2 ^ 63 /\
  removePoint (2 ^ 63) two_points = (Raise OverflowError, two_points, []) /\
  (removePoint (2 ^ 63) two_points).2 = [] /\
  removePoint (- 2 ^ 63 - 1) two_points = (Raise OverflowError, two_points, []).
Proof.
  split; [reflexivity|]. split; [simpl; lia|]. split; [reflexivity|].
  split; reflexivity.
Qed.

Lemma removePoint_out_of_range_witness :
  (Z.of_nat (length (points two_points)) <= 2 \/
   2 < - Z.of_nat (length (points two_points))) /\
  fits_ssize_t 2 = true /\
  removePoint 2 two_points =
    (Return (), two_points, ["Index Error with point 2"]) /\
  removePoint (-3) two_points =
    (Return (), two_points, ["Index Error with point -3"]) /\
  fits_ssize_t (2 ^ 63) = false /\
  Z.of_nat (length (points two_points)) < 2 ^ 63 /\
  removePoint (2 ^ 63) two_points = (Raise OverflowError, two_points, []).
Proof.
  split; [left; simpl; lia|]. split; [reflexivity|].
  split; [|split; [|split; [|split]]].
  - apply (proj1 (removePoint_out_of_range 2 two_points
                    ltac:(left; simpl; lia))). reflexivity.
  - apply (proj1 (removePoint_out_of_range (-3) two_points
                    ltac:(right; simpl; lia))). reflexivity.
  - reflexivity.
  - reflexivity.
  - apply (proj2 (removePoint_out_of_range (2 ^ 63) two_points
                    ltac:(left; simpl; lia))); reflexivity.
Defined.

Lemma removePoint_negative_index_witness :
  consistent two_points /\
  - Z.of_nat (length (points two_points)) <= -2 <= -1 /\
  removePoint (-2) two_points =
    (Return (),
     mkShape [ZP 1 1] (Some (Rows [(1, 1)])) false None ShapeType.polygon, []) /\
  removePoint (-1) two_points =
    (Return (),
     mkShape [ZP 0 0] (Some (Rows [(0, 0)])) false None ShapeType.polygon, []) /\
  Z.of_nat (length (points two_points)) < 2 ^ 63 /\
  (removePoint (-3) two_points).2 <> [] /\
  ((Z.of_nat (length (points two_points)) <= -3 \/
    -3 < - Z.of_nat (length (points two_points))) /\
   fits_ssize_t (-3) = true).
Proof.
  assert (Hc : consistent two_points) by reflexivity.
  assert (Hn : Z.of_nat (length (points two_points)) < 2 ^ 63) by reflexivity.
  assert (Hlog : (removePoint (-3) two_points).2 <> []) by discriminate.
  split; [exact Hc|]. split; [simpl; lia|]. split; [|split; [|split; [|split]]].
  - apply (proj1 (removePoint_negative_index (-2) two_points Hc)). simpl. lia.
  - apply (proj1 (removePoint_negative_index (-1) two_points Hc)). simpl. lia.
  - exact Hn.
  - exact Hlog.
  - exact (proj1 (proj2 (proj2 (removePoint_negative_index (-2) two_points Hc))
                    Hn (-3)) Hlog).
Defined.

Lemma insertPoint_leaves_buffer_behind_witness :
  consistent two_points /\
  0 <= 0 <= Z.of_nat (length (points two_points)) /\
  insertPoint 0 (ZP 5 5) two_points =
    (Return (),
     mkShape [ZP 5 5; ZP 0 0; ZP 1 1] (Some (Rows [(0, 0); (1, 1)])) false None
             ShapeType.polygon) /\
  ~ consistent (insertPoint 0 (ZP 5 5) two_points).2.
Proof.
  assert (Hc : consistent two_points) by reflexivity.
  assert (Hi : 0 <= 0 <= Z.of_nat (length (points two_points))) by (simpl; lia).
  split; [exact Hc|]. split; [exact Hi|]. split; [reflexivity|].
  exact (proj2 (proj2 (proj2
    (insertPoint_leaves_buffer_behind 0 (ZP 5 5) two_points Hc Hi)))).
Defined.

(** C2, as stated, fails: with 2 points, index 3 is outside [0, 2], yet
    [insertPoint] returns normally and [points] has gained the point; index
    9 does raise [IndexError], after [points] has gained the point. *)
Lemma insertPoint_out_of_range_accepted :
  consistent two_points /\
  ~ 0 <= 3 <= Z.of_nat (length (points two_points)) /\
  insertPoint 3 (ZP 5 5) two_points =
    (Return (),
     mkShape [ZP 0 0; ZP 1 1; ZP 5 5] (Some (Rows [(0, 0); (1, 1)])) false None
             ShapeType.polygon) /\
  ~ insertPoint_rejects 3 (ZP 5 5) two_points /\
  insertPoint 9 (ZP 5 5) two_points =
    (Raise IndexError,
     mkShape [ZP 0 0; ZP 1 1; ZP 5 5] (Some (Rows [(0, 0); (1, 1)])) false None
             ShapeType.polygon) /\
  ~ insertPoint_rejects 9 (ZP 5 5) two_points.
Proof.
  split; [reflexivity|]. split; [simpl; lia|]. split; [reflexivity|].
  split; [intros [E _]; discriminate E|]. split; [reflexivity|].
  intros (_ & E & _). discriminate E.
Qed.

Lemma insertPoint_out_of_range_clamps_witness :
  (3 < 0 \/ Z.of_nat (length (points two_points)) < 3) /\
  fits_ssize_t 3 = true /\
  length (points (insertPoint 3 (ZP 5 5) two_points).2) = 3%nat /\
  points (insertPoint 3 (ZP 5 5) two_points).2 = [ZP 0 0; ZP 1 1; ZP 5 5] /\
  points (insertPoint (-1) (ZP 5 5) two_points).2 = [ZP 0 0; ZP 5 5; ZP 1 1] /\
  fits_ssize_t (2 ^ 63) = false /\
  Z.of_nat (length (points two_points)) < 2 ^ 63 /\
  insertPoint (2 ^ 63) (ZP 5 5) two_points = (Raise OverflowError, two_points).
Proof.
  assert (H3 : 3 < 0 \/ Z.of_nat (length (points two_points)) < 3)
    by (right; simpl; lia).
  assert (Hm : -1 < 0 \/ Z.of_nat (length (points two_points)) < -1)
    by (left; lia).
  assert (Hb : 2 ^ 63 < 0 \/ Z.of_nat (length (points two_points)) < 2 ^ 63)
    by (right; simpl; lia).
  split; [exact H3|]. split; [reflexivity|].
  split; [|split; [|split; [|split; [|split]]]].
  - exact (proj1 (proj1 (insertPoint_out_of_range_clamps 3 (ZP 5 5) two_points H3)
                    eq_refl)).
  - apply (proj1 (proj2 (proj1 (insertPoint_out_of_range_clamps 3 (ZP 5 5)
                                  two_points H3) eq_refl))).
    simpl; lia.
  - apply (proj2 (proj2 (proj1 (insertPoint_out_of_range_clamps (-1) (ZP 5 5)
                                  two_points Hm) eq_refl))).
    lia.
  - reflexivity.
  - reflexivity.
  - exact (proj2 (insertPoint_out_of_range_clamps (2 ^ 63) (ZP 5 5) two_points Hb)
             eq_refl eq_refl).
Defined.

Lemma insert_then_remove_drops_row_witness :
  consistent two_points /\
  0 <= 0 <= Z.of_nat (length (points two_points)) /\
  (removePoint 0 (insertPoint 0 (ZP 5 5) two_points).2).1.2 =
    mkShape [ZP 0 0; ZP 1 1] (Some (Rows [(1, 1)])) false None
            ShapeType.polygon /\
  poly_array (removePoint 0 (insertPoint 0 (ZP 5 5) two_points).2).1.2 <>
    poly_array two_points.
Proof.
  assert (Hc : consistent two_points) by reflexivity.
  assert (Hi : 0 <= 0 <= Z.of_nat (length (points two_points))) by (simpl; lia).
  split; [exact Hc|]. split; [exact Hi|]. split; [reflexivity|].
  apply (proj1 (proj2
    (insert_then_remove_drops_row 0 (ZP 5 5) two_points Hc Hi))).
  simpl; lia.
Defined.

(** ** Path construction *)

Section PathFacts.
Context {C : Type} `{Scalar C}.
Variable path_contains : QPainterPath C -> QPointF.t C -> bool.
Variable path_boundingRect : QPainterPath C -> QRectF.t C.

(** C10: for a shape type other than rectangle and circle, [makePath]
    reads [points[0]] whatever the shape holds: on an empty shape it
    raises [IndexError], and so do [containsPoint] and [boundingRect]; on
    a non-empty one it returns the polyline. A rectangle or circle whose
    point count is not 2 gets the empty path. *)
Theorem makePath_reads_first_point (s : Shape C) :
  (shape_type s <> ShapeType.rectangle -> shape_type s <> ShapeType.circle ->
     (points s = [] ->
        makePath s = Raise IndexError /\
        (forall p, containsPoint path_contains p s = Raise IndexError) /\
        boundingRect path_boundingRect s = Raise IndexError) /\
     (forall p0 ps, points s = p0 :: ps ->
        makePath s = Return (MoveTo p0 :: (LineTo <$> ps)))) /\
  (shape_type s = ShapeType.rectangle \/ shape_type s = ShapeType.circle ->
     length (points s) <> 2%nat -> makePath s = Return []).
Proof.
  split.
  - intros Hr Hc.
    assert (Hmk : makePath s =
              match points s with
              | [] => Raise IndexError
              | p0 :: ps => Return (MoveTo p0 :: (LineTo <$> ps))
              end)
      by (unfold makePath; destruct (shape_type s); done).
    split.
    + intros Hp. unfold containsPoint, boundingRect.
      rewrite Hmk, Hp. done.
    + intros p0 ps Hp. by rewrite Hmk, Hp.
  - intros Hty Hlen. unfold makePath.
    destruct Hty as [-> | ->];
      destruct (points s) as [|a [|b [|c l]]]; done.
Qed.

End PathFacts.

Lemma makePath_reads_first_point_witness :
  (shape_type (init (C:=Z) ShapeType.line) <> ShapeType.rectangle /\
   shape_type (init (C:=Z) ShapeType.line) <> ShapeType.circle /\
   points (init (C:=Z) ShapeType.line) = [] /\
   makePath (init (C:=Z) ShapeType.line) = Raise IndexError) /\
  (shape_type square_Z <> ShapeType.rectangle /\
   shape_type square_Z <> ShapeType.circle /\
   makePath square_Z =
     Return [MoveTo (ZP 0 0); LineTo (ZP 10 0); LineTo (ZP 10 10);
             LineTo (ZP 0 10)]) /\
  ((shape_type (init (C:=Z) ShapeType.circle) = ShapeType.rectangle \/
    shape_type (init (C:=Z) ShapeType.circle) = ShapeType.circle) /\
   length (points (init (C:=Z) ShapeType.circle)) <> 2%nat /\
   makePath (init (C:=Z) ShapeType.circle) = Return []).
Proof.
  pose (contains := fun (_ : QPainterPath Z) (_ : QPointF.t Z) => true).
  pose (bounding := fun (_ : QPainterPath Z) => QRectF.mk 0 0 0 0).
  split; [|split].
  - split; [discriminate|]. split; [discriminate|]. split; [reflexivity|].
    apply (proj1 (proj1 (makePath_reads_first_point contains bounding
             (init ShapeType.line)) ltac:(discriminate) ltac:(discriminate))).
    reflexivity.
  - split; [discriminate|]. split; [discriminate|].
    exact (proj2 (proj1 (makePath_reads_first_point contains bounding square_Z)
             ltac:(discriminate) ltac:(discriminate))
             (ZP 0 0) [ZP 10 0; ZP 10 10; ZP 0 10] eq_refl).
  - split; [right; reflexivity|]. split; [discriminate|].
    apply (proj2 (makePath_reads_first_point contains bounding
             (init ShapeType.circle))); [right; reflexivity|discriminate].
Defined.

(** C8: [getCircleRectFromLine] gives [None] for a line that does not
    have exactly 2 points; for the line [[c; q]] it gives a rectangle
    whose width and height are both [2 d], [d] the Euclidean distance
    from [c] to [q], and whose centre is [c]; the path of a circle shape
    with these two points is the ellipse of that rectangle. Coordinates
    are real numbers. *)
Theorem getCircleRectFromLine_square (line : list (QPointF.t R)) :
  (length line <> 2%nat -> getCircleRectFromLine line = None) /\
  (forall c q, line = [c; q] ->
     exists rect,
       getCircleRectFromLine line = Some rect /\
       QRectF.width rect = (2 * euclidean_distance c q)%R /\
       QRectF.height rect = (2 * euclidean_distance c q)%R /\
       center rect = c /\
       forall s : Shape R,
         shape_type s = ShapeType.circle -> points s = line ->
         makePath s = Return [AddEllipse rect]).
Proof.
  split.
  - intros Hlen. destruct line as [|a [|b [|c l]]]; done.
  - intros c q ->.
    set (d := euclidean_distance c q).
    assert (Hrect : getCircleRectFromLine [c; q] =
              Some (QRectF.mk (QPointF.x c - d) (QPointF.y c - d)
                              (2 * d) (2 * d))%R).
    { unfold getCircleRectFromLine, d, euclidean_distance, pow2. cbn.
      replace ((QPointF.x c - QPointF.x q) * (QPointF.x c - QPointF.x q) +
               (QPointF.y c - QPointF.y q) * (QPointF.y c - QPointF.y q))%R
        with ((QPointF.x q - QPointF.x c) * (QPointF.x q - QPointF.x c) +
              (QPointF.y q - QPointF.y c) * (QPointF.y q - QPointF.y c))%R
        by ring.
      reflexivity. }
    eexists. split; [exact Hrect|].
    split; [reflexivity|]. split; [reflexivity|]. split.
    + unfold center. destruct c as [cx cy]. cbn. f_equal; field.
    + intros s Hty Hp. unfold makePath. rewrite Hty, Hp, Hrect. reflexivity.
Qed.

Lemma getCircleRectFromLine_square_witness :
  length [QPointF.mk 1%R 2%R] <> 2%nat /\
  getCircleRectFromLine [QPointF.mk 1%R 2%R] = None /\
  exists rect,
    getCircleRectFromLine [QPointF.mk 1%R 2%R; QPointF.mk 4%R 6%R] = Some rect /\
    QRectF.width rect =
      (2 * euclidean_distance (QPointF.mk 1 2) (QPointF.mk 4 6))%R /\
    center rect = QPointF.mk 1%R 2%R.
Proof.
  split; [discriminate|]. split.
  - apply (proj1 (getCircleRectFromLine_square [QPointF.mk 1%R 2%R])).
    discriminate.
  - destruct (proj2 (getCircleRectFromLine_square
                [QPointF.mk 1%R 2%R; QPointF.mk 4%R 6%R]) _ _ eq_refl)
      as (rect & Hr & Hw & _ & Hc & _).
    exists rect. split; [exact Hr|]. split; [exact Hw|exact Hc].
Defined.

(** ** Nearest vertex *)

#[global] Instance Z_ScalarOrder : ScalarOrder Z.
Proof.
  split; cbn.
  - intros a. apply Z.ltb_irrefl.
  - intros a b c Hab Hbc. apply Z.ltb_lt. apply Z.ltb_lt in Hab, Hbc. lia.
  - intros a b. rewrite !Z.ltb_lt. lia.
Qed.

Section NearestVertexFacts.
Context {C : Type} `{ScalarOrder C}.

Local Abbreviation smaller := (fun m b : C => if s_ltb b m then b else m).

(** The scan of [np.argmin] and the fold of [np.min] run over the suffix
    [l] of [pre ++ l] with the best of [pre] in hand: they end on the
    first position of the smallest element. *)
Lemma argmin_from_scan (l pre : list C) (best : nat) (m : C) :
  (pre ++ l) !! best = Some m ->
  (best < length pre)%nat ->
  (forall j b, (j < length pre)%nat -> (pre ++ l) !! j = Some b ->
     s_ltb b m = false) ->
  (forall j b, (j < best)%nat -> (pre ++ l) !! j = Some b -> b <> m) ->
  (pre ++ l) !! argmin_from best m (length pre) l = Some (foldl smaller m l) /\
  (forall j b, (pre ++ l) !! j = Some b -> s_ltb b (foldl smaller m l) = false) /\
  (forall j b, (j < argmin_from best m (length pre) l)%nat ->
     (pre ++ l) !! j = Some b -> b <> foldl smaller m l).
Proof.
  revert pre best m. induction l as [|a l IH]; intros pre best m Hb Hlt Hmin Hfst.
  - cbn [argmin_from foldl]. split; [done|]. split; [|done].
    intros j b Hj. apply (Hmin j); [|done].
    apply lookup_lt_Some in Hj. by rewrite length_app, Nat.add_0_r in Hj.
  - cbn [argmin_from foldl].
    assert (Hpre : pre ++ a :: l = (pre ++ [a]) ++ l) by by rewrite <- app_assoc.
    assert (Hlen : S (length pre) = length (pre ++ [a]))
      by (rewrite length_app; simpl; lia).
    assert (Ha : (pre ++ a :: l) !! length pre = Some a)
      by apply list_lookup_middle, eq_refl.
    rewrite Hpre in *. rewrite Hlen.
    destruct (s_ltb a m) eqn:Ham.
    + apply IH.
      * done.
      * lia.
      * intros j b Hj Hjb.
        destruct (decide (j = length pre)) as [->|Hne].
        { rewrite Ha in Hjb. injection Hjb as <-. apply s_lt_irrefl. }
        destruct (s_ltb b a) eqn:Hba; [|done].
        rewrite <- (Hmin j b); [|lia|done].
        symmetry. by apply (s_lt_trans b a m).
      * intros j b Hj Hjb ->.
        rewrite (Hmin j a) in Ham; [done|lia|done].
    + apply IH.
      * done.
      * lia.
      * intros j b Hj Hjb.
        destruct (decide (j = length pre)) as [->|Hne].
        { rewrite Ha in Hjb. by injection Hjb as <-. }
        apply (Hmin j); [lia|done].
      * done.
Qed.

Lemma np_argmin_first (a : C) (l : list C) :
  exists i m,
    np_argmin (a :: l) = Some i /\ np_min (a :: l) = Some m /\
    (a :: l) !! i = Some m /\
    (forall j b, (a :: l) !! j = Some b -> s_ltb b m = false) /\
    (forall j b, (j < i)%nat -> (a :: l) !! j = Some b -> b <> m).
Proof.
  exists (argmin_from 0 a 1 l), (foldl smaller a l).
  split; [done|]. split; [done|].
  apply (argmin_from_scan l [a] 0 a).
  - done.
  - simpl. lia.
  - intros [|j] b Hj Hjb; [|simpl in Hj; lia].
    injection Hjb as <-. apply s_lt_irrefl.
  - intros j b Hj. lia.
Qed.

Lemma sq_dists_points (point : QPointF.t C) (pts : list (QPointF.t C)) :
  sq_dists point (row_of <$> pts) = sq_distance point <$> pts.
Proof. unfold sq_dists. rewrite <- list_fmap_compose. by apply list_fmap_ext. Qed.

(** C6: on a consistent, non-empty shape [nearestVertex] finds the first
    vertex [v], at index [i], whose squared Euclidean distance to the
    query point is the minimum over all vertices (no vertex is strictly
    nearer, none before [i] is as near), and returns [(i, None)] when the
    square root of that distance is [< epsilon], [(None, i)] otherwise. *)
Theorem nearestVertex_first_argmin (point : QPointF.t C) (epsilon : C)
    (s : Shape C) :
  consistent s ->
  points s <> [] ->
  exists (i : nat) (v : QPointF.t C),
    points s !! i = Some v /\
    (forall j p, points s !! j = Some p ->
       s_ltb (sq_distance point p) (sq_distance point v) = false) /\
    (forall j p, (j < i)%nat -> points s !! j = Some p ->
       sq_distance point p <> sq_distance point v) /\
    nearestVertex point epsilon s =
      Return (if s_ltb (s_sqrt (sq_distance point v)) epsilon
              then (Some (Z.of_nat i), None)
              else (None, Some (Z.of_nat i))).
Proof.
  intros Hc Hne. unfold nearestVertex. rewrite Hc, sq_dists_points.
  destruct (points s) as [|p0 ps] eqn:Hp; [done|].
  destruct (np_argmin_first (sq_distance point p0) (sq_distance point <$> ps))
    as (i & m & Hi & Hm & Him & Hmin & Hfst).
  change (sq_distance point p0 :: (sq_distance point <$> ps))
    with (sq_distance point <$> p0 :: ps) in *.
  rewrite Hi, Hm.
  rewrite list_lookup_fmap in Him.
  destruct ((p0 :: ps) !! i) as [v|] eqn:Hv; [|done].
  injection Him as <-.
  exists i, v. split; [done|]. split; [|split].
  - intros j p Hj. apply (Hmin j). by rewrite list_lookup_fmap, Hj.
  - intros j p Hji Hj. apply (Hfst j); [done|]. by rewrite list_lookup_fmap, Hj.
  - by destruct (s_ltb _ epsilon).
Qed.

End NearestVertexFacts.

Lemma nearestVertex_first_argmin_witness :
  consistent square_Z /\ points square_Z <> [] /\
  nearestVertex (ZP 1 1) 2 square_Z = Return (Some 0, None) /\
  nearestVertex (ZP 5 5) 1 square_Z = Return (None, Some 0) /\
  exists (i : nat) (v : QPointF.t Z),
    points square_Z !! i = Some v /\
    nearestVertex (ZP 9 9) 2 square_Z =
      Return (if s_ltb (s_sqrt (sq_distance (ZP 9 9) v)) 2
              then (Some (Z.of_nat i), None)
              else (None, Some (Z.of_nat i))).
Proof.
  assert (Hc : consistent square_Z) by reflexivity.
  assert (Hne : points square_Z <> []) by discriminate.
  split; [exact Hc|]. split; [exact Hne|].
  split; [reflexivity|]. split; [reflexivity|].
  destruct (nearestVertex_first_argmin (ZP 9 9) 2 square_Z Hc Hne)
    as (i & v & Hv & _ & _ & Hr).
  exists i, v. split; [exact Hv|exact Hr].
Defined.

(** ** Nearest edge *)

Lemma take_2_drop {A} (l : list A) (k : nat) (a b : A) :
  l !! k = Some a -> l !! S k = Some b -> take 2 (drop k l) = [a; b].
Proof.
  intros Ha Hb.
  rewrite <- (take_drop_middle l k a Ha) in Hb |- *.
  assert (Hk : length (take k l) = k)
    by (apply length_take_le, Nat.lt_le_incl, (lookup_lt_Some _ _ _ Ha)).
  rewrite drop_app_length' by done.
  rewrite (lookup_app_r _ _ (S k)) in Hb by lia.
  rewrite Hk in Hb. replace (S k - k)%nat with 1%nat in Hb by lia.
  simpl in Hb. destruct (drop (S k) l) as [|b' l']; [done|].
  injection Hb as ->. done.
Qed.

Lemma zip_ranges (m : Z) (h : nat) :
  zip (range_up m h) (range_down m h) =
  (fun k => (m + Z.of_nat k, m - Z.of_nat k)) <$> seq 0 h.
Proof.
  unfold range_up, range_down. generalize 0%nat.
  induction h as [|h IH]; intros k0; [done|].
  simpl. f_equal. apply IH.
Qed.

Section NearestEdgeFacts.
Context {C : Type} `{Scalar C}.
Variable distancetoline : QPointF.t C -> list (row C) -> outcome C.
Variable pa : list (row C).

Local Abbreviation n := (Z.of_nat (length pa)).

Lemma edge_lookup (e : Z) :
  pa <> [] ->
  exists a b, pa !! Z.to_nat ((e - 1) mod n) = Some a /\
              pa !! Z.to_nat (e mod n) = Some b /\ edge pa e = [a; b].
Proof.
  intros Hne.
  assert (Hn : 0 < n) by (destruct pa; [done|simpl; lia]).
  destruct (lookup_lt_is_Some_2 pa (Z.to_nat ((e - 1) mod n))) as [a Ha].
  { pose proof (Z.mod_pos_bound (e - 1) n Hn). lia. }
  destruct (lookup_lt_is_Some_2 pa (Z.to_nat (e mod n))) as [b Hb].
  { pose proof (Z.mod_pos_bound e n Hn). lia. }
  exists a, b. unfold edge. by rewrite Ha, Hb.
Qed.

Lemma closing_line_edge (e : Z) :
  pa <> [] -> e = 0 \/ e = n -> closing_line pa = Return (edge pa e).
Proof.
  intros Hne He.
  assert (Hn : 0 < n) by (destruct pa; [done|simpl; lia]).
  destruct (edge_lookup e Hne) as (a & b & Ha & Hb & ->).
  unfold closing_line, index.
  rewrite norm_index_neg, norm_index_nonneg by lia. cbn [mbind option_bind].
  assert (E1 : (e - 1) mod n = n + -1).
  { destruct He as [-> | ->].
    - symmetry. apply (Z.mod_unique_pos _ _ (-1)); lia.
    - apply Z.mod_small. lia. }
  assert (E2 : e mod n = 0).
  { destruct He as [-> | ->]; [done|]. apply Z.mod_same. lia. }
  rewrite E1 in Ha. rewrite E2 in Hb. by rewrite Ha, Hb.
Qed.

(** A slice of two rows that stays inside the array. *)
Lemma slice_edge (e lo : Z) :
  pa <> [] ->
  0 < e mod n ->
  (lo = e mod n - 1 \/ (lo + 2 < 0 /\ lo = e mod n - 1 - n)) ->
  slice pa (Some lo) (Some (lo + 2)) = edge pa e.
Proof.
  intros Hne He Hlo.
  assert (Hn : 0 < n) by (destruct pa; [done|simpl; lia]).
  pose proof (Z.mod_pos_bound e n Hn) as Hb.
  destruct (edge_lookup e Hne) as (a & b & Ha & Hb' & ->).
  assert (E1 : (e - 1) mod n = e mod n - 1).
  { symmetry. apply (Z.mod_unique_pos _ _ (e / n)); [lia|].
    pose proof (Z.div_mod e n). lia. }
  rewrite E1 in Ha. clear E1.
  unfold slice. cbn [from_option].
  generalize dependent (e mod n). intros r He Hlo Hb Ha Hb'.
  assert (Ea : clamp_index (length pa) lo = Z.to_nat (r - 1)).
  { unfold clamp_index. destruct (Z.ltb_spec lo 0); lia. }
  assert (Eb : clamp_index (length pa) (lo + 2) = Z.to_nat (r + 1)).
  { unfold clamp_index. destruct (Z.ltb_spec (lo + 2) 0); lia. }
  rewrite Ea, Eb.
  replace (Z.to_nat (r + 1) - Z.to_nat (r - 1))%nat with 2%nat by lia.
  apply take_2_drop; [done|].
  by replace (S (Z.to_nat (r - 1))) with (Z.to_nat r) by lia.
Qed.

(** The forward candidate tests the edge its index names. *)
Lemma line_pos_edge (i : Z) :
  pa <> [] -> 0 <= i < 2 * n ->
  line_pos pa i = Return (forward_index n i, edge pa i).
Proof.
  intros Hne Hi. unfold line_pos, forward_index.
  destruct ((i =? 0) || (i =? n)) eqn:E.
  - rewrite (closing_line_edge i); [done|done|].
    apply orb_true_iff in E. destruct E as [E|E]; apply Z.eqb_eq in E; auto.
  - apply orb_false_iff in E. destruct E as [E0 En].
    apply Z.eqb_neq in E0, En.
    assert (Hm : 0 < i mod n).
    { destruct (Z.ltb_spec i n).
      - rewrite Z.mod_small; lia.
      - rewrite <- (Z.mod_unique_pos i n 1 (i - n)); lia. }
    do 2 f_equal.
    replace (i mod n + 1) with ((i mod n - 1) + 2) by lia.
    by apply slice_edge; [|  |left].
Qed.

(** So does the backward candidate, the index [-1] apart; it never
    raises. *)
Lemma line_neg_edge (j : Z) :
  pa <> [] -> - n <= j - 1 -> j < n ->
  exists ln, line_neg pa j = Return ln /\ (j <> -1 -> ln = edge pa j).
Proof.
  intros Hne Hlo Hhi.
  assert (Hn : 0 < n) by (destruct pa; [done|simpl; lia]).
  unfold line_neg.
  destruct ((j >? 0) || (j <? -1)) eqn:E.
  - eexists. split; [done|]. intros _.
    apply orb_true_iff in E.
    replace (j + 1) with ((j - 1) + 2) by lia.
    destruct E as [E|E].
    + assert (0 < j) by lia. apply slice_edge; [done| |].
      * rewrite Z.mod_small; lia.
      * left. rewrite Z.mod_small; lia.
    + apply Z.ltb_lt in E.
      assert (Hm : j mod n = j + n).
      { symmetry. apply (Z.mod_unique_pos _ _ (-1)); lia. }
      apply slice_edge; [done|lia|]. right. lia.
  - apply orb_false_iff in E. destruct E as [E1 E2].
    destruct (Z.eqb_spec j 0) as [->|Hj0].
    + eexists. split; [by apply (closing_line_edge 0); auto|done].
    + eexists. split; [done|]. lia.
Qed.

(** The segment the backward candidate measures; it never raises. *)
Lemma line_neg_segment (j : Z) :
  pa <> [] -> - n <= j - 1 -> j < n ->
  line_neg pa j = Return (backward_segment pa j).
Proof.
  intros Hne Hlo Hhi. unfold backward_segment.
  destruct (Z.eqb_spec j (-1)) as [->|Hj]; [done|].
  destruct (line_neg_edge j Hne Hlo Hhi) as (ln & -> & Hln). by rewrite Hln.
Qed.

(** On a buffer of two rows or more every segment the search measures
    has two rows. *)
Lemma edge_two_rows (e : Z) : pa <> [] -> exists a b, edge pa e = [a; b].
Proof. intros Hne. destruct (edge_lookup e Hne) as (a & b & _ & _ & ->). by eexists _, _. Qed.

Lemma backward_segment_two_rows (j : Z) :
  (2 <= length pa)%nat -> exists a b, backward_segment pa j = [a; b].
Proof.
  intros Hlen. unfold backward_segment. destruct (j =? -1).
  - unfold slice. cbn [from_option]. rewrite drop_0, Nat.sub_0_r.
    replace (clamp_index (length pa) 2) with 2%nat
      by (unfold clamp_index; destruct (Z.ltb_spec 2 0); lia).
    destruct pa as [|a [|b l]]; [simpl in Hlen; lia..|]. by exists a, b.
  - apply edge_two_rows. intros E. rewrite E in Hlen. simpl in Hlen. lia.
Qed.

Variable point : QPointF.t C.
Variable epsilon : C.
Variable m : Z.

Local Abbreviation near_e := (near distancetoline pa point epsilon).
Local Abbreviation missed_k := (missed distancetoline pa point epsilon m).
Local Abbreviation first_of := (first_match distancetoline pa point epsilon m).
Local Abbreviation hit := (first_hit distancetoline pa point epsilon m).
Local Abbreviation steps :=
  (fun k0 len => (fun k => (m + Z.of_nat k, m - Z.of_nat k)) <$> seq k0 len).

(** The search by the segments it measures has the first match of its
    steps, in the sense that leaves the backward candidate [-1] aside. *)
Lemma first_hit_first_match (len k0 : nat) :
  first_of k0 len (Return (hit (seq k0 len))).
Proof.
  revert k0. induction len as [|len IH]; intros k0.
  - cbn. intros k Hk. lia.
  - cbn [seq first_hit].
    change (within distancetoline point epsilon (edge pa (m + Z.of_nat k0)))
      with (near_e (m + Z.of_nat k0)).
    assert (Hback : m - Z.of_nat k0 <> -1 ->
              within distancetoline point epsilon
                (backward_segment pa (m - Z.of_nat k0)) =
              near_e (m - Z.of_nat k0)).
    { intros Hj. unfold near, backward_segment.
      by destruct (Z.eqb_spec (m - Z.of_nat k0) (-1)). }
    destruct (near_e (m + Z.of_nat k0)) eqn:Hpos.
    + cbn. exists k0. split; [lia|]. split; [intros; lia|]. by left.
    + destruct (within _ _ _ (backward_segment _ _)) eqn:Hneg.
      * cbn. exists k0. split; [lia|]. split; [intros; lia|]. right.
        split; [done|]. split; [done|]. intros Hj. by rewrite <- Hback.
      * assert (Hmiss : missed_k k0).
        { split; [done|]. intros Hj. by rewrite <- Hback. }
        specialize (IH (S k0)).
        destruct (hit (seq (S k0) len)) as [e|]; cbn in IH |- *.
        -- destruct IH as (k & Hk1 & Hk2 & Hk3).
           exists k. split; [lia|]. split; [|done].
           intros k' Hk'. destruct (decide (k' = k0)) as [->|]; [done|].
           apply Hk2. lia.
        -- intros k Hk'. destruct (decide (k = k0)) as [->|]; [done|].
           apply IH. lia.
Qed.

(** With a [distancetoline] that returns on segments, the loop entered
    from a vertex index does not raise and reports what the search by
    measured segments reports. *)
Lemma nearestEdge_loop_first_hit (len k0 : nat) (s : Shape C) :
  returns_on_segments distancetoline ->
  0 <= m < n ->
  (k0 + len <= length pa / 2)%nat ->
  (nearestEdge_loop distancetoline pa point epsilon (steps k0 len) s).1 =
    Return (hit (seq k0 len)).
Proof.
  intros Hret Hm. revert k0. induction len as [|len IH]; intros k0 Hk; [done|].
  assert (Hhalf : 2 * Z.of_nat (length pa / 2) <= n).
  { pose proof (Nat.Div0.mul_div_le (length pa) 2). lia. }
  assert (Hlen : (2 <= length pa)%nat) by lia.
  assert (Hne : pa <> []) by (intros E; rewrite E in Hlen; simpl in Hlen; lia).
  cbn [seq first_hit]. rewrite fmap_cons. cbn [nearestEdge_loop].
  rewrite line_pos_edge by (done || lia).
  rewrite line_neg_segment by (done || lia).
  unfold within.
  destruct (edge_two_rows (m + Z.of_nat k0) Hne) as (a & b & ->).
  destruct (backward_segment_two_rows (m - Z.of_nat k0) Hlen) as (a' & b' & ->).
  destruct (Hret point a b) as [di ->].
  destruct (Hret point a' b') as [dj ->].
  destruct (s_leb di epsilon); [done|].
  destruct (s_leb dj epsilon); [done|].
  apply IH. lia.
Qed.

(** The search as a whole, by the segments it measures. *)
Lemma nearestEdge_first_hit (on_tick : bool) (s : Shape C) :
  returns_on_segments distancetoline ->
  poly_array s = Some (Rows pa) ->
  0 <= m < n ->
  on_tick = false \/ prev_val s = None ->
  (nearestEdge distancetoline on_tick point epsilon m s).1 =
    Return (hit (seq 0 (length pa / 2))).
Proof.
  intros Hret Hpa Hm Hcache. unfold nearestEdge.
  assert (E : on_tick && bool_decide (prev_val s <> None) = false).
  { destruct Hcache as [-> | ->]; [done|].
    rewrite bool_decide_eq_false_2; [by destruct on_tick|]. by intros []. }
  rewrite E, Hpa. cbn [np_rows]. rewrite zip_ranges.
  by apply nearestEdge_loop_first_hit.
Qed.

(** The search as a whole, entered from a vertex index and with the
    cached-result shortcut not taken. *)
Lemma nearestEdge_first_match_gen (on_tick : bool) (s : Shape C) :
  returns_on_segments distancetoline ->
  poly_array s = Some (Rows pa) ->
  0 <= m < n ->
  on_tick = false \/ prev_val s = None ->
  first_of 0 (length pa / 2)
    (nearestEdge distancetoline on_tick point epsilon m s).1.
Proof.
  intros Hret Hpa Hm Hcache.
  rewrite (nearestEdge_first_hit on_tick s Hret Hpa Hm Hcache).
  apply first_hit_first_match.
Qed.

End NearestEdgeFacts.

(** *** The square of the specification's example *)

Lemma segment_distance_returns : returns_on_segments segment_distance.
Proof. intros p a b. by eexists. Qed.

Lemma segment_distance_left_edge :
  segment_distance (RP 5 0) [(0, 10); (0, 0)]%R = Return 5%R.
Proof.
  unfold segment_distance. unfold RP. cbn [fst snd QPointF.x QPointF.y]. f_equal.
  destruct (Rlt_dec _ 0) as [Hlt|_]; [exfalso; lra|].
  destruct (Rlt_dec 0 _) as [Hlt|_]; [exfalso; lra|].
  destruct (Req_dec_T _ 0) as [Heq|_]; [exfalso; lra|].
  replace ((0 - 0) * (0 - 0) + (0 - 10) * (0 - 10))%R with (10 * 10)%R by ring.
  rewrite sqrt_square by lra.
  replace ((0 - 0) * (0 - 10) - (0 - 10) * (5 - 0))%R with 50%R by ring.
  rewrite Rabs_right by lra. field.
Qed.

Lemma segment_distance_bottom_edge :
  segment_distance (RP 5 0) [(0, 0); (10, 0)]%R = Return 0%R.
Proof.
  unfold segment_distance. unfold RP. cbn [fst snd QPointF.x QPointF.y]. f_equal.
  destruct (Rlt_dec _ 0) as [Hlt|_]; [exfalso; lra|].
  destruct (Rlt_dec 0 _) as [Hlt|_]; [exfalso; lra|].
  destruct (Req_dec_T _ 0) as [Heq|_]; [exfalso; lra|].
  replace ((10 - 0) * (0 - 0) - (0 - 0) * (5 - 0))%R with 0%R by ring.
  rewrite Rabs_R0. unfold Rdiv. apply Rmult_0_l.
Qed.

Lemma segment_distance_top_edge :
  segment_distance (RP 5 0) [(10, 10); (0, 10)]%R = Return 10%R.
Proof.
  unfold segment_distance. unfold RP. cbn [fst snd QPointF.x QPointF.y]. f_equal.
  destruct (Rlt_dec _ 0) as [Hlt|_]; [exfalso; lra|].
  destruct (Rlt_dec 0 _) as [Hlt|_]; [exfalso; lra|].
  destruct (Req_dec_T _ 0) as [Heq|_]; [exfalso; lra|].
  replace ((0 - 10) * (0 - 10) + (10 - 10) * (10 - 10))%R with (10 * 10)%R by ring.
  rewrite sqrt_square by lra.
  replace ((0 - 10) * (0 - 10) - (10 - 10) * (5 - 10))%R with 100%R by ring.
  rewrite Rabs_right by lra. field.
Qed.

(** The distances from the middle of the top side, (5, 10). *)
Lemma segment_distance_from_top_left_edge :
  segment_distance (RP 5 10) [(0, 10); (0, 0)]%R = Return 5%R.
Proof.
  unfold segment_distance. unfold RP. cbn [fst snd QPointF.x QPointF.y]. f_equal.
  destruct (Rlt_dec _ 0) as [Hlt|_]; [exfalso; lra|].
  destruct (Rlt_dec 0 _) as [Hlt|_]; [exfalso; lra|].
  destruct (Req_dec_T _ 0) as [Heq|_]; [exfalso; lra|].
  replace ((0 - 0) * (0 - 0) + (0 - 10) * (0 - 10))%R with (10 * 10)%R by ring.
  rewrite sqrt_square by lra.
  replace ((0 - 0) * (10 - 10) - (0 - 10) * (5 - 0))%R with 50%R by ring.
  rewrite Rabs_right by lra. field.
Qed.

Lemma segment_distance_from_top_bottom_edge :
  segment_distance (RP 5 10) [(0, 0); (10, 0)]%R = Return 10%R.
Proof.
  unfold segment_distance. unfold RP. cbn [fst snd QPointF.x QPointF.y]. f_equal.
  destruct (Rlt_dec _ 0) as [Hlt|_]; [exfalso; lra|].
  destruct (Rlt_dec 0 _) as [Hlt|_]; [exfalso; lra|].
  destruct (Req_dec_T _ 0) as [Heq|_]; [exfalso; lra|].
  replace ((10 - 0) * (10 - 0) + (0 - 0) * (0 - 0))%R with (10 * 10)%R by ring.
  rewrite sqrt_square by lra.
  replace ((10 - 0) * (10 - 0) - (0 - 0) * (5 - 0))%R with 100%R by ring.
  rewrite Rabs_right by lra. field.
Qed.

Lemma segment_distance_from_top_top_edge :
  segment_distance (RP 5 10) [(10, 10); (0, 10)]%R = Return 0%R.
Proof.
  unfold segment_distance. unfold RP. cbn [fst snd QPointF.x QPointF.y]. f_equal.
  destruct (Rlt_dec _ 0) as [Hlt|_]; [exfalso; lra|].
  destruct (Rlt_dec 0 _) as [Hlt|_]; [exfalso; lra|].
  destruct (Req_dec_T _ 0) as [Heq|_]; [exfalso; lra|].
  replace ((0 - 10) * (10 - 10) - (10 - 10) * (5 - 10))%R with 0%R by ring.
  rewrite Rabs_R0. unfold Rdiv. apply Rmult_0_l.
Qed.

(** The search on the square from vertex 0 measures two segments, the
    closing edge at step 0 and rows 0 and 1, the bottom edge, at step 1,
    each for both candidates of the step. *)
Lemma nearestEdge_square_from_0
    (distancetoline : QPointF.t R -> list (row R) -> outcome R)
    (on_tick : bool) (p : QPointF.t R) (epsilon dl db : R) :
  distancetoline p [(0, 10); (0, 0)]%R = Return dl ->
  distancetoline p [(0, 0); (10, 0)]%R = Return db ->
  (nearestEdge distancetoline on_tick p epsilon 0 square_R).1 =
    Return (if s_leb dl epsilon then Some 0
            else if s_leb db epsilon then Some 1 else None).
Proof.
  intros Hleft Hbottom. unfold nearestEdge, square_R.
  cbn [prev_val poly_array np_rows].
  replace (on_tick && bool_decide (None <> None :> option Z)) with false
    by (by destruct on_tick).
  change (zip _ _) with [(0, 0); (1, -1)].
  cbn [nearestEdge_loop].
  change (line_pos _ 0) with (Return (0, [(0, 10); (0, 0)]%R)).
  change (line_neg _ 0) with (Return [(0, 10); (0, 0)]%R).
  cbv iota beta. rewrite Hleft.
  destruct (s_leb dl epsilon); [done|].
  change (line_pos _ 1) with (Return (1, [(0, 0); (10, 0)]%R)).
  change (line_neg _ (-1)) with (Return [(0, 0); (10, 0)]%R).
  cbv iota beta. rewrite Hbottom.
  by destruct (s_leb db epsilon).
Qed.

(** Whatever [distancetoline] is, if it returns on segments and puts the
    query point farther than [epsilon] from the closing edge and within
    [epsilon] of the bottom edge, the search from vertex 0 reports index
    1. *)
Lemma nearestEdge_square
    (distancetoline : QPointF.t R -> list (row R) -> outcome R)
    (on_tick : bool) :
  returns_on_segments distancetoline ->
  near distancetoline square_rows (RP 5 0) (1 / 2)%R 0 = false ->
  near distancetoline square_rows (RP 5 0) (1 / 2)%R 1 = true ->
  (nearestEdge distancetoline on_tick (RP 5 0) (1 / 2)%R 0 square_R).1
    = Return (Some 1).
Proof.
  intros Hret.
  destruct (Hret (RP 5 0) (0, 10)%R (0, 0)%R) as [dl Hl].
  destruct (Hret (RP 5 0) (0, 0)%R (10, 0)%R) as [db Hb].
  assert (Hl' : distancetoline (RP 5 0) (edge square_rows 0) = Return dl)
    by exact Hl.
  assert (Hb' : distancetoline (RP 5 0) (edge square_rows 1) = Return db)
    by exact Hb.
  unfold near, within. rewrite Hl', Hb'. intros Hfar Hnear.
  rewrite (nearestEdge_square_from_0 _ _ _ _ dl db Hl Hb).
  by rewrite Hfar, Hnear.
Qed.

Lemma segment_distance_square :
  near segment_distance square_rows (RP 5 0) (1 / 2)%R 0 = false /\
  near segment_distance square_rows (RP 5 0) (1 / 2)%R 1 = true.
Proof.
  assert (Hl : segment_distance (RP 5 0) (edge square_rows 0) = Return 5%R)
    by exact segment_distance_left_edge.
  assert (Hb : segment_distance (RP 5 0) (edge square_rows 1) = Return 0%R)
    by exact segment_distance_bottom_edge.
  unfold near, within. rewrite Hl, Hb. cbn.
  split.
  - destruct (Rle_dec 5 (1 / 2)); [exfalso; lra|done].
  - destruct (Rle_dec 0 (1 / 2)); [done|exfalso; lra].
Qed.




(** ** Further properties of the editing operations *)

Lemma index_lookup {A} (l : list A) (i : Z) (a : A) :
  index l i = Some a <->
  exists k, norm_index (length l) i = Some k /\ l !! k = Some a.
Proof.
  unfold index. destruct (norm_index (length l) i) as [k|]; cbn.
  - split; [by exists k|]. by intros (k' & [= <-] & Hk).
  - split; [done|]. by intros (k' & [=] & _).
Qed.

Lemma row_of_inj {C} (p q : QPointF.t C) : row_of p = row_of q -> p = q.
Proof. destruct p, q. unfold row_of. cbn. by intros [= -> ->]. Qed.

Section MoreEditingFacts.
Context {C : Type} `{Scalar C}.
Implicit Types (s : Shape C) (p q point offset : QPointF.t C) (i key : Z).

Lemma popPoint_snoc s ps p :
  consistent s ->
  points s = ps ++ [p] ->
  popPoint s =
    (Return (Some p),
     mkShape ps (Some (Rows (row_of <$> ps))) (_closed s) (prev_val s)
             (shape_type s)).
Proof.
  unfold consistent, popPoint. intros Hc Hp. rewrite Hc.
  destruct (points s) as [|a l] eqn:E; [by destruct ps|].
  cbn [points set_points set_poly_array poly_array _closed prev_val shape_type
       np_slice].
  rewrite E, Hp, slice_init, removelast_fmap, removelast_last, last_snoc. done.
Qed.

(** [popPoint] takes the last point off a consistent shape, together
    with its row, and returns it. *)
Theorem popPoint_removes_last s ps p :
  consistent s ->
  points s = ps ++ [p] ->
  popPoint s =
    (Return (Some p),
     mkShape ps (Some (Rows (row_of <$> ps))) (_closed s) (prev_val s)
             (shape_type s)).
Proof. apply popPoint_snoc. Qed.

(** [popPoint] undoes an [addPoint] that appended: on a consistent shape
    the pair gives the point back and the shape it started from. On a
    shape that has no buffer yet the pair leaves the buffer of the
    points behind (with no points, the array of no rows). On a shape
    whose buffer is the one-dimensional empty array [addPoint] raises
    [ValueError] after it has appended the point, and [popPoint] takes
    the point off again. *)
Theorem popPoint_undoes_addPoint p s :
  equals_first p s = false ->
  (consistent s ->
     (addPoint p s).1 = Return () /\
     popPoint (addPoint p s).2 = (Return (Some p), s)) /\
  (poly_array s = None ->
     (addPoint p s).1 = Return () /\
     popPoint (addPoint p s).2 =
       (Return (Some p),
        set_poly_array (Some (Rows (row_of <$> points s))) s)) /\
  (poly_array s = Some Empty1D ->
     (addPoint p s).1 = Raise ValueError /\
     popPoint (addPoint p s).2 = (Return (Some p), s)).
Proof.
  intros Hno. rewrite (addPoint_appends _ _ Hno).
  assert (Hpop : forall s' : Shape C, points s' = points s ++ [p] ->
            popPoint s' =
              match poly_array s' with
              | None => (Raise TypeError, s')
              | Some a =>
                  (Return (Some p),
                   mkShape (points s) (Some (np_slice a None (Some (-1))))
                           (_closed s') (prev_val s') (shape_type s'))
              end).
  { intros s' Hs'. unfold popPoint.
    destruct (points s') as [|a l] eqn:E; [by destruct (points s)|].
    destruct (poly_array s') as [a'|]; [|done].
    cbn [points set_points set_poly_array poly_array _closed prev_val
         shape_type].
    by rewrite E, Hs', removelast_last, last_snoc. }
  split_and!.
  - intros Hc. rewrite Hc. split; [done|]. rewrite Hpop by done.
    cbn [snd poly_array _closed prev_val shape_type np_slice].
    rewrite slice_init, removelast_last.
    destruct s. unfold consistent in Hc. cbn in *. by rewrite Hc.
  - intros Hpa. rewrite Hpa. split; [done|]. rewrite Hpop by done.
    cbn [snd poly_array _closed prev_val shape_type np_slice].
    rewrite slice_init, fmap_app. change (row_of <$> [p]) with [row_of p].
    by rewrite removelast_last.
  - intros Hpa. rewrite Hpa. split; [done|]. rewrite Hpop by done.
    cbn [snd poly_array _closed prev_val shape_type np_slice set_points].
    rewrite Hpa. destruct s. cbn in *. by subst.
Qed.

(** Where [insertPoint] puts the point, read back with [shape[key]],
    when the index converts to a machine index: at key [i] for
    [0 <= i <= n]; for a negative [-n <= i < 0] at key [i - 1],
    [shape[i]] being what it was; at the end for [i > n] and at the front
    for [i < -n]. The length grows by one in every case. When the index
    does not convert, [OverflowError] is raised and the shape is as it
    was. *)
Theorem insertPoint_then_getitem i p s :
  let n := Z.of_nat (length (points s)) in
  let s' := (insertPoint i p s).2 in
  (index_fits (length (points s)) i = true ->
     __len__ s' = __len__ s + 1 /\
     (0 <= i <= n -> __getitem__ i s' = Return p) /\
     (- n <= i < 0 ->
        __getitem__ (i - 1) s' = Return p /\
        __getitem__ i s' = __getitem__ i s) /\
     (n < i -> __getitem__ n s' = Return p) /\
     (i < - n -> __getitem__ 0 s' = Return p)) /\
  (index_fits (length (points s)) i = false ->
     insertPoint i p s = (Raise OverflowError, s)).
Proof.
  intros n s'. subst s'. split; [|apply insertPoint_overflow].
  intros Hfit. rewrite insertPoint_state by done.
  unfold __len__, __getitem__, index. cbn [points set_points].
  rewrite insert_at_length.
  assert (Hmid : forall k, (k <= length (points s))%nat ->
            (take k (points s) ++ p :: drop k (points s)) !! k = Some p).
  { intros k Hk. rewrite list_lookup_middle; [done|]. rewrite length_take. lia. }
  split; [lia|]. split; [|split; [|split]].
  - intros Hi. rewrite norm_index_nonneg by lia. cbn.
    unfold insert_at. rewrite clamp_index_inside by done. rewrite Hmid; [done|lia].
  - intros Hi. split.
    + rewrite norm_index_neg by lia. cbn. unfold insert_at, clamp_index.
      destruct (Z.ltb_spec i 0); [|lia].
      replace (Z.to_nat (Z.of_nat (S (length (points s))) + (i - 1)))
        with (Z.to_nat (Z.max 0 (n + i))) by lia.
      rewrite Hmid; [done|lia].
    + rewrite !norm_index_neg by lia. cbn. unfold insert_at, clamp_index.
      destruct (Z.ltb_spec i 0); [|lia].
      unfold n. set (k := Z.to_nat (Z.max 0 (Z.of_nat (length (points s)) + i))).
      replace (Z.to_nat (Z.of_nat (S (length (points s))) + i)) with (S k) by lia.
      replace (Z.to_nat (Z.of_nat (length (points s)) + i)) with k by lia.
      rewrite lookup_app_r by (rewrite length_take; lia).
      rewrite length_take.
      replace (S k - k `min` length (points s))%nat with 1%nat by lia.
      rewrite (lookup_cons_ne_0 _ _ 1) by done. cbn [Nat.pred].
      by rewrite lookup_drop, Nat.add_0_r.
  - intros Hi. rewrite norm_index_nonneg by lia. cbn. unfold insert_at, clamp_index.
    destruct (Z.ltb_spec i 0); [lia|].
    replace (Z.to_nat (Z.min i (Z.of_nat (length (points s)))))
      with (Z.to_nat n) by lia.
    rewrite Hmid; [done|lia].
  - intros Hi. rewrite norm_index_nonneg by lia. cbn. unfold insert_at, clamp_index.
    destruct (Z.ltb_spec i 0); [|lia].
    replace (Z.to_nat (Z.max 0 (Z.of_nat (length (points s)) + i)))
      with 0%nat by lia.
    done.
Qed.

(** [shape[key] = value] writes [points] only: the buffer stays as it
    was, so a consistent shape stays consistent exactly when the value
    written is the point that was there. *)
Theorem setitem_leaves_buffer key value s q :
  consistent s ->
  __getitem__ key s = Return q ->
  (__setitem__ key value s).1 = Return () /\
  __getitem__ key (__setitem__ key value s).2 = Return value /\
  __len__ (__setitem__ key value s).2 = __len__ s /\
  poly_array (__setitem__ key value s).2 = poly_array s /\
  (consistent (__setitem__ key value s).2 <-> value = q).
Proof.
  intros Hc Hq. unfold __getitem__ in Hq.
  destruct (index (points s) key) as [q'|] eqn:Hidx; [|done].
  injection Hq as ->.
  apply index_lookup in Hidx as (k & Hk & Hkq).
  pose proof (lookup_lt_Some _ _ _ Hkq) as Hlt.
  unfold __setitem__, update. rewrite Hk. cbn. rewrite Hkq. cbn.
  split; [done|]. split; [|split; [|split; [done|]]].
  - unfold __getitem__, index. cbn. rewrite length_insert, Hk. cbn.
    by rewrite list_lookup_insert_eq.
  - unfold __len__. cbn. by rewrite length_insert.
  - unfold consistent. cbn. rewrite Hc. split.
    + intros [= Heq]. apply row_of_inj.
      apply (f_equal (fun l => l !! k)) in Heq.
      rewrite !list_lookup_fmap, Hkq, list_lookup_insert_eq in Heq by done.
      unfold row_of in *. cbn in Heq. congruence.
    + intros ->. by rewrite list_insert_id.
Qed.

(** [removePoint] with an index [0 <= i < n] takes point [i] and row [i]
    off a consistent shape and logs nothing; the index [i - n] is another
    name for the same call. *)
Theorem removePoint_in_range i s :
  consistent s ->
  0 <= i < Z.of_nat (length (points s)) ->
  removePoint i s =
    (Return (),
     mkShape (delete (Z.to_nat i) (points s))
             (Some (Rows (row_of <$> delete (Z.to_nat i) (points s))))
             (_closed s) (prev_val s) (shape_type s), []) /\
  removePoint (i - Z.of_nat (length (points s))) s = removePoint i s.
Proof.
  intros Hc Hi.
  assert (E : forall j k, norm_index (length (points s)) j = Some k ->
            removePoint j s =
              (Return (),
               mkShape (delete k (points s))
                       (Some (Rows (row_of <$> delete k (points s))))
                       (_closed s) (prev_val s) (shape_type s), [])).
  { intros j k Hj. unfold removePoint. rewrite (pop_in_range _ _ _ Hj).
    cbn [poly_array set_points]. rewrite Hc. cbn [mbind option_bind].
    by rewrite (np_delete_rows _ _ _ Hj). }
  rewrite (E i (Z.to_nat i)) by (by apply norm_index_nonneg).
  split; [done|]. apply E. rewrite norm_index_neg by lia. f_equal. lia.
Qed.


(** Two translations in a row are the translation by the sum of the
    offsets, in outcome and in state, when [+] on coordinates is
    associative. *)
Theorem moveBy_compose a b s :
  (forall x y z : C, s_add (s_add x y) z = s_add x (s_add y z)) ->
  moveBy b (moveBy a s).2 = moveBy (QPointF.add a b) s.
Proof.
  intros Hassoc. unfold moveBy. cbn [points poly_array set_points].
  assert (Hpts : (fun p => QPointF.add p b) <$>
                   ((fun p => QPointF.add p a) <$> points s) =
                 (fun p => QPointF.add p (QPointF.add a b)) <$> points s).
  { rewrite <- list_fmap_compose. apply list_fmap_ext. intros _ p _.
    unfold QPointF.add. cbn. by rewrite !Hassoc. }
  destruct (poly_array s) as [[|pa]|] eqn:Hpa;
    cbn [np_add_row poly_array points set_points set_poly_array snd];
    rewrite ?Hpa, Hpts; [done| |done].
  assert (Hrows :
    (fun r : row C => (s_add r.1 (row_of b).1, s_add r.2 (row_of b).2)) <$>
      ((fun r : row C => (s_add r.1 (row_of a).1, s_add r.2 (row_of a).2)) <$> pa) =
    (fun r : row C => (s_add r.1 (row_of (QPointF.add a b)).1,
                       s_add r.2 (row_of (QPointF.add a b)).2)) <$> pa).
  { rewrite <- list_fmap_compose. apply list_fmap_ext. intros _ r _.
    cbn. by rewrite !Hassoc. }
  unfold set_poly_array, set_points.
  cbn [np_add_row poly_array points _closed prev_val shape_type].
  do 4 f_equal. exact Hrows.
Qed.

End MoreEditingFacts.

(** ** Further properties of hit testing *)

Section MoreNearestVertexFacts.
Context {C : Type} `{Scalar C}.

Lemma argmin_from_bound (l : list C) (best k : nat) (m : C) :
  (best < k)%nat -> (argmin_from best m k l < k + length l)%nat.
Proof.
  revert best k m. induction l as [|a l IH]; intros best k m Hb; cbn; [lia|].
  destruct (s_ltb a m).
  - specialize (IH k (S k) a). lia.
  - specialize (IH best (S k) m). lia.
Qed.

Lemma nearestVertex_returns_row_index (point : QPointF.t C) (epsilon : C)
    (s : Shape C) (pa : list (row C)) :
  poly_array s = Some (Rows pa) -> pa <> [] ->
  exists k : nat, (k < length pa)%nat /\
    (nearestVertex point epsilon s = Return (Some (Z.of_nat k), None) \/
     nearestVertex point epsilon s = Return (None, Some (Z.of_nat k))).
Proof.
  unfold nearestVertex. intros -> Hne. destruct pa as [|r pa]; [done|].
  unfold sq_dists. rewrite fmap_cons. cbn [np_min np_argmin].
  match goal with
  | |- context [argmin_from 0 ?a 1 ?l] =>
      exists (argmin_from 0 a 1 l);
      pose proof (argmin_from_bound l 0 1 a ltac:(lia)) as Hb
  end.
  rewrite length_fmap in Hb. split; [exact Hb|].
  destruct (s_ltb _ epsilon); [by left|by right].
Qed.

(** How [nearestVertex] ends: [TypeError] without a buffer, [ValueError]
    on a buffer of no rows, be it the one-dimensional empty array or the
    array of rows brought down to none, and otherwise a pair with exactly
    one index in it, which is a row index of the buffer. *)
Theorem nearestVertex_outcome (point : QPointF.t C) (epsilon : C) (s : Shape C) :
  (poly_array s = None -> nearestVertex point epsilon s = Raise TypeError) /\
  (poly_array s = Some (Rows []) ->
     nearestVertex point epsilon s = Raise ValueError) /\
  (poly_array s = Some Empty1D ->
     nearestVertex point epsilon s = Raise ValueError) /\
  (forall pa, poly_array s = Some (Rows pa) -> pa <> [] ->
     exists k : nat, (k < length pa)%nat /\
       (nearestVertex point epsilon s = Return (Some (Z.of_nat k), None) \/
        nearestVertex point epsilon s = Return (None, Some (Z.of_nat k)))).
Proof.
  split; [|split; [|split]].
  - unfold nearestVertex. by intros ->.
  - unfold nearestVertex. by intros ->.
  - unfold nearestVertex. by intros ->.
  - intros pa. apply nearestVertex_returns_row_index.
Qed.

(** A larger [epsilon] keeps a snap: when [nearestVertex] snaps to vertex
    [i] within [epsilon], it snaps to [i] within every [epsilon' >
    epsilon]. *)
Theorem nearestVertex_snap_monotone `{!ScalarOrder C}
    (point : QPointF.t C) (epsilon epsilon' : C) (s : Shape C) (i : Z) :
  s_ltb epsilon epsilon' = true ->
  nearestVertex point epsilon s = Return (Some i, None) ->
  nearestVertex point epsilon' s = Return (Some i, None).
Proof.
  intros Hlt. unfold nearestVertex.
  destruct (poly_array s) as [[|pa]|]; [done| |done].
  destruct (np_min _) as [m|]; [|done].
  destruct (np_argmin _) as [k|]; [|done].
  destruct (s_ltb (s_sqrt m) epsilon) eqn:E; [|done].
  intros [= <-]. by rewrite (s_lt_trans _ _ _ E Hlt).
Qed.

End MoreNearestVertexFacts.

Section MoreNearestEdgeFacts.
Context {C : Type} `{Scalar C}.
Variable distancetoline : QPointF.t C -> list (row C) -> outcome C.
Implicit Types (pa : list (row C)) (s : Shape C) (point : QPointF.t C).

Lemma line_pos_returns pa (i : Z) :
  pa <> [] -> exists r, line_pos pa i = Return r.
Proof.
  intros Hne. unfold line_pos.
  destruct (_ || _); [|by eexists].
  rewrite (closing_line_edge pa 0 Hne) by auto. by eexists.
Qed.

Lemma line_neg_returns pa (j : Z) :
  pa <> [] -> exists l, line_neg pa j = Return l.
Proof.
  intros Hne. unfold line_neg.
  destruct (_ || _); [by eexists|].
  destruct (j =? 0); [|by eexists].
  rewrite (closing_line_edge pa 0 Hne) by auto. by eexists.
Qed.

(** What the loop does to the shape: nothing, unless it stops on a
    candidate, and then it writes [prev_val] only. It raises only what
    [distancetoline] raises. *)
Lemma nearestEdge_loop_state pa point (epsilon : C) (ijs : list (Z * Z)) s :
  pa <> [] ->
  nearestEdge_loop distancetoline pa point epsilon ijs s = (Return None, s) \/
  (exists e i,
     nearestEdge_loop distancetoline pa point epsilon ijs s =
       (Return (Some e), set_prev_val (Some i) s)) \/
  (exists e line,
     nearestEdge_loop distancetoline pa point epsilon ijs s = (Raise e, s) /\
     distancetoline point line = Raise e).
Proof.
  intros Hne. induction ijs as [|[i j] ijs IH]; [by left|].
  cbn [nearestEdge_loop].
  destruct (line_pos_returns pa i Hne) as ([i' lp] & ->).
  destruct (line_neg_returns pa j Hne) as (ln & ->).
  destruct (distancetoline point lp) as [di|e] eqn:Hdi;
    [|right; right; by exists e, lp].
  destruct (distancetoline point ln) as [dj|e] eqn:Hdj;
    [|right; right; by exists e, ln].
  destruct (s_leb di epsilon); [right; left; by eexists _, _|].
  destruct (s_leb dj epsilon); [right; left; by eexists _, _|].
  exact IH.
Qed.

(** The ways [nearestEdge] ends on the shape, the cached-result shortcut
    included. *)
Lemma nearestEdge_state (on_tick : bool) point (epsilon : C) (m : Z) s :
  let r := nearestEdge distancetoline on_tick point epsilon m s in
  (r = (Return (prev_val s), s) /\ prev_val s <> None) \/
  r = (Return None, s) \/
  (r = (Raise TypeError, s) /\ poly_array s = None) \/
  (exists e i, r = (Return (Some e), set_prev_val (Some i) s)) \/
  (exists e line, r = (Raise e, s) /\ distancetoline point line = Raise e).
Proof.
  intros r. subst r. unfold nearestEdge.
  destruct (on_tick && bool_decide (prev_val s <> None)) eqn:E.
  - left. split; [done|]. apply andb_true_iff in E as [_ E].
    by apply bool_decide_eq_true_1 in E.
  - right. destruct (poly_array s) as [a|]; [|by right; left].
    destruct (np_rows a) as [|row0 pa] eqn:Ha; [by left|].
    destruct (nearestEdge_loop_state (row0 :: pa) point epsilon
                (zip (range_up m (length (row0 :: pa) / 2))
                     (range_down m (length (row0 :: pa) / 2))) s)
      as [E' | [E' | E']]; [done|by left|by right; right; left
                           |by right; right; right].
Qed.

Lemma cache_not_used (on_tick : bool) s :
  on_tick = false \/ prev_val s = None ->
  on_tick && bool_decide (prev_val s <> None) = false.
Proof.
  intros [-> | ->]; [done|].
  rewrite bool_decide_eq_false_2; [by destruct on_tick|]. by intros [].
Qed.

(** The exceptions of [nearestEdge]. With no buffer, or called without a
    [minDistIndex], it raises [TypeError] (unless it returns the cached
    result). Any other exception it raises is one [distancetoline]
    raised on a line it was handed. Entered from a vertex index of a
    buffer of rows, with a [distancetoline] that returns on segments, it
    returns. *)
Theorem nearestEdge_exceptions (on_tick : bool) point (epsilon : C) (m : Z) s :
  (on_tick = false \/ prev_val s = None ->
     (poly_array s = None ->
        nearestEdge distancetoline on_tick point epsilon m s =
          (Raise TypeError, s)) /\
     nearestEdge_default on_tick point epsilon s = (Raise TypeError, s)) /\
  (forall e,
     (nearestEdge distancetoline on_tick point epsilon m s).1 = Raise e ->
     (poly_array s = None /\ e = TypeError) \/
     exists line, distancetoline point line = Raise e) /\
  (forall pa, poly_array s = Some (Rows pa) ->
     0 <= m < Z.of_nat (length pa) ->
     returns_on_segments distancetoline ->
     exists r, (nearestEdge distancetoline on_tick point epsilon m s).1
               = Return r).
Proof.
  split; [|split].
  - intros Hcache. apply cache_not_used in Hcache.
    unfold nearestEdge, nearestEdge_default. rewrite Hcache.
    split; [by intros ->|done].
  - intros e.
    destruct (nearestEdge_state on_tick point epsilon m s)
      as [[-> _] | [-> | [[-> Hpa] | [(e' & i & ->) | (e' & line & -> & Hl)]]]];
      cbn [fst]; try done.
    + intros [= <-]. by left.
    + intros [= <-]. right. by exists line.
  - intros pa Hpa Hm Hret.
    destruct (on_tick && bool_decide (prev_val s <> None)) eqn:E.
    + unfold nearestEdge. rewrite E. by eexists.
    + rewrite (nearestEdge_first_hit distancetoline pa point epsilon m on_tick s
                 Hret Hpa Hm); [by eexists|].
      apply andb_false_iff in E as [E|E]; [by left|right].
      apply bool_decide_eq_false_1 in E.
      by destruct (prev_val s) as [z|]; [destruct E|].
Qed.

(** [nearestEdge] writes nothing but [prev_val], and that only when it
    reports an index; once it has reported one, every later call made
    while the clock test holds returns the cached value, whatever point,
    tolerance and index it is given. *)
Theorem nearestEdge_writes_prev_val_only (on_tick : bool) point
    (epsilon : C) (m : Z) s :
  let r := nearestEdge distancetoline on_tick point epsilon m s in
  points r.2 = points s /\ poly_array r.2 = poly_array s /\
  _closed r.2 = _closed s /\ shape_type r.2 = shape_type s /\
  ((forall e, r.1 <> Return (Some e)) -> r.2 = s) /\
  (forall e, r.1 = Return (Some e) ->
     prev_val r.2 <> None /\
     forall point' (epsilon' : C) (m' : Z),
       nearestEdge distancetoline true point' epsilon' m' r.2 =
         (Return (prev_val r.2), r.2)).
Proof.
  assert (Hcached : forall s' : Shape C, prev_val s' <> None ->
            forall point' (epsilon' : C) (m' : Z),
              nearestEdge distancetoline true point' epsilon' m' s' =
                (Return (prev_val s'), s')).
  { intros s' Hs' point' epsilon' m'. unfold nearestEdge.
    by rewrite bool_decide_eq_true_2. }
  intros r.
  pose proof (nearestEdge_state on_tick point epsilon m s) as Hr.
  cbv zeta in Hr. fold r in Hr. clearbody r.
  destruct Hr as [[-> Hp] | [-> | [[-> _] | [(e1 & i & ->) | (e1 & l & -> & _)]]]];
    cbn [fst snd]; split_and!; try done.
  - intros e0 _. split; [done|by apply Hcached].
  - intros Hno. by destruct (Hno e1).
Qed.

Lemma nearestEdge_loop_cache pa point (epsilon : C) (m : Z) (len k0 : nat) s
    (e : Z) (s' : Shape C) :
  0 <= m < Z.of_nat (length pa) ->
  (k0 + len <= length pa / 2)%nat ->
  nearestEdge_loop distancetoline pa point epsilon
    ((fun k => (m + Z.of_nat k, m - Z.of_nat k)) <$> seq k0 len) s
    = (Return (Some e), s') ->
  exists k, (k0 <= k < k0 + len)%nat /\
    found distancetoline pa point epsilon m k e /\
    s' = set_prev_val
           (Some (forward_index (Z.of_nat (length pa)) (m + Z.of_nat k))) s.
Proof.
  intros Hm. revert k0. induction len as [|len IH]; intros k0 Hk; [done|].
  assert (Hne : pa <> []) by (intros E; rewrite E in Hm; simpl in Hm; lia).
  assert (Hhalf : 2 * Z.of_nat (length pa / 2) <= Z.of_nat (length pa)).
  { pose proof (Nat.Div0.mul_div_le (length pa) 2). lia. }
  cbn [seq]. rewrite fmap_cons. cbn [nearestEdge_loop].
  rewrite line_pos_edge by (done || lia).
  destruct (line_neg_edge pa (m - Z.of_nat k0) Hne) as (ln & -> & Hln); [lia|lia|].
  destruct (distancetoline point (edge pa (m + Z.of_nat k0))) as [di|]
    eqn:Hdi; [|done].
  destruct (distancetoline point ln) as [dj|] eqn:Hdj; [|done].
  assert (Hpos : near distancetoline pa point epsilon (m + Z.of_nat k0) =
                 s_leb di epsilon)
    by (unfold near, within; by rewrite Hdi).
  assert (Hneg : m - Z.of_nat k0 <> -1 ->
                 near distancetoline pa point epsilon (m - Z.of_nat k0) =
                 s_leb dj epsilon).
  { intros Hj. unfold near, within. by rewrite <- (Hln Hj), Hdj. }
  destruct (s_leb di epsilon) eqn:Ei.
  - intros [= <- <-]. exists k0. split; [lia|]. split; [by left|done].
  - destruct (s_leb dj epsilon) eqn:Ej.
    + intros [= <- <-]. exists k0. split; [lia|]. split; [by right|done].
    + intros Hrest. destruct (IH (S k0) ltac:(lia) Hrest) as (k & Hk1 & Hk2 & Hk3).
      exists k. split; [lia|done].
Qed.

(** The index cached by a search is the forward index of the step it
    stopped at, also when the index returned is the backward one: a later
    call that uses the cache then reports an index the search did not
    return. *)
Theorem nearestEdge_caches_forward_index point (epsilon : C) (m : Z) s pa
    (e : Z) :
  poly_array s = Some (Rows pa) ->
  0 <= m < Z.of_nat (length pa) ->
  (nearestEdge distancetoline false point epsilon m s).1 = Return (Some e) ->
  exists k : nat, (k < length pa / 2)%nat /\
    found distancetoline pa point epsilon m k e /\
    prev_val (nearestEdge distancetoline false point epsilon m s).2 =
      Some (forward_index (Z.of_nat (length pa)) (m + Z.of_nat k)).
Proof.
  intros Hpa Hm. unfold nearestEdge. cbn [andb]. rewrite Hpa. cbn [np_rows].
  rewrite zip_ranges.
  destruct (nearestEdge_loop _ _ _ _ _ _) as [r s'] eqn:E. cbn [fst snd].
  intros ->.
  destruct (nearestEdge_loop_cache pa point epsilon m (length pa / 2) 0 s e s'
              Hm (Nat.le_refl _) E) as (k & Hk & Hf & ->).
  exists k. split; [lia|]. by split.
Qed.

(** Short buffers: with fewer than 2 rows no edge is tested and the
    search reports nothing; with 2 or 3 rows the search has one step, and
    the only edge it measures is the one that ends at the entry vertex:
    it reports the entry index when that edge is within [epsilon],
    nothing when it is not, and raises what [distancetoline] raises on
    it. *)
Theorem nearestEdge_up_to_3_rows (on_tick : bool) point (epsilon : C) (m : Z)
    s pa :
  poly_array s = Some (Rows pa) ->
  on_tick = false \/ prev_val s = None ->
  ((length pa <= 1)%nat ->
     nearestEdge distancetoline on_tick point epsilon m s = (Return None, s)) /\
  ((2 <= length pa <= 3)%nat -> 0 <= m < Z.of_nat (length pa) ->
     (nearestEdge distancetoline on_tick point epsilon m s).1 =
       match distancetoline point (edge pa m) with
       | Return d => Return (if s_leb d epsilon then Some m else None)
       | Raise e => Raise e
       end) /\
  ((2 <= length pa <= 3)%nat -> 0 <= m < Z.of_nat (length pa) ->
     returns_on_segments distancetoline ->
     (nearestEdge distancetoline on_tick point epsilon m s).1 =
       Return (if near distancetoline pa point epsilon m then Some m else None)).
Proof.
  intros Hpa Hcache. apply cache_not_used in Hcache.
  assert (Hone : (2 <= length pa <= 3)%nat -> 0 <= m < Z.of_nat (length pa) ->
            (nearestEdge distancetoline on_tick point epsilon m s).1 =
              match distancetoline point (edge pa m) with
              | Return d => Return (if s_leb d epsilon then Some m else None)
              | Raise e => Raise e
              end).
  { intros Hlen Hm. unfold nearestEdge. rewrite Hcache, Hpa. cbn [np_rows].
    assert (Hhalf : (length pa / 2 = 1)%nat).
    { destruct pa as [|r0 [|r1 [|r2 [|r3 pa]]]]; simpl in Hlen; try lia; done. }
    assert (Hne : pa <> []) by (intros E; rewrite E in Hlen; simpl in Hlen; lia).
    assert (Hfwd : forward_index (Z.of_nat (length pa)) m = m).
    { unfold forward_index.
      destruct (_ || _); [done|]. apply Z.mod_small. lia. }
    rewrite Hhalf. cbn [range_up range_down seq fmap list_fmap zip zip_with].
    rewrite Z.add_0_r, Z.sub_0_r. cbn [nearestEdge_loop].
    rewrite line_pos_edge by (done || lia). rewrite Hfwd.
    destruct (line_neg_edge pa m Hne) as (ln & -> & Hln); [lia|lia|].
    rewrite Hln by lia.
    destruct (distancetoline point (edge pa m)) as [d|e]; [|done].
    by destruct (s_leb d epsilon). }
  split; [|split].
  - intros Hlen. unfold nearestEdge. rewrite Hcache, Hpa.
    by destruct pa as [|r0 [|r1 pa]]; [| |simpl in Hlen; lia].
  - exact Hone.
  - intros Hlen Hm Hret. rewrite (Hone Hlen Hm). unfold near, within.
    assert (Hne : pa <> []) by (intros E; rewrite E in Hlen; simpl in Hlen; lia).
    destruct (edge_two_rows pa m Hne) as (a & b & ->).
    by destruct (Hret point a b) as [d ->].
Qed.

(** The index [nearestVertex] reports, snapped or not, is a vertex index
    of the buffer. Entered from it, with a [distancetoline] that returns
    on segments, [nearestEdge] does not raise and reports the candidate
    of the first step that has a measured segment within [epsilon], the
    forward candidate before the backward one; the segment measured for
    a candidate is the edge it names, except for the backward candidate
    -1, for which it is rows 0 and 1. *)
Theorem nearestVertex_feeds_nearestEdge point (epsilon : C) point'
    (epsilon' : C) (on_tick : bool) s pa (a b : option Z) (m : Z) :
  poly_array s = Some (Rows pa) ->
  nearestVertex point epsilon s = Return (a, b) ->
  a = Some m \/ b = Some m ->
  0 <= m < Z.of_nat (length pa) /\
  (returns_on_segments distancetoline ->
   on_tick = false \/ prev_val s = None ->
   (nearestEdge distancetoline on_tick point' epsilon' m s).1 =
     Return (first_hit distancetoline pa point' epsilon' m
               (seq 0 (length pa / 2)))).
Proof.
  intros Hpa Hnv Hm.
  assert (Hin : 0 <= m < Z.of_nat (length pa)).
  { destruct pa as [|r0 pa].
    { unfold nearestVertex in Hnv. by rewrite Hpa in Hnv. }
    destruct (nearestVertex_returns_row_index point epsilon s _ Hpa ltac:(done))
      as (k & Hlt & [E | E]);
      rewrite E in Hnv; injection Hnv as <- <-;
      destruct Hm as [[= <-] | [= <-]]; lia. }
  split; [exact Hin|]. intros Hret Hcache.
  by apply nearestEdge_first_hit.
Qed.

End MoreNearestEdgeFacts.

(** ** Further properties of path construction and painting *)

Section MorePathFacts.
Context {C : Type} `{Scalar C}.
Variable path_contains : QPainterPath C -> QPointF.t C -> bool.
Variable path_boundingRect : QPainterPath C -> QRectF.t C.
Variable s_div : C -> C -> C.
Implicit Types (s : Shape C) (v : Rendering C).

(** [makePath], [containsPoint] and [boundingRect] raise in one case
    only, a shape without points whose type is neither rectangle nor
    circle, and then [IndexError]; in every other case they return, the
    last two with what Qt answers for the path. *)
Theorem path_queries_raise_iff s (p : QPointF.t C) :
  ((exists e, makePath s = Raise e) <->
   (shape_type s <> ShapeType.rectangle /\ shape_type s <> ShapeType.circle /\
    points s = [])) /\
  (forall e, makePath s = Raise e ->
     e = IndexError /\ containsPoint path_contains p s = Raise IndexError /\
     boundingRect path_boundingRect s = Raise IndexError) /\
  (forall path, makePath s = Return path ->
     containsPoint path_contains p s = Return (path_contains path p) /\
     boundingRect path_boundingRect s = Return (path_boundingRect path)).
Proof.
  assert (Hkind : forall e, makePath s = Raise e ->
            e = IndexError /\ shape_type s <> ShapeType.rectangle /\
            shape_type s <> ShapeType.circle /\ points s = []).
  { unfold makePath. intros e He.
    destruct (shape_type s); destruct (points s) as [|a [|b [|c l]]];
      cbn in He; try done; by injection He as <-. }
  split; [|split].
  - split.
    + intros [e He]. by destruct (Hkind e He) as (_ & ?).
    + intros (Hr & Hc & Hp). exists IndexError. unfold makePath. rewrite Hp.
      by destruct (shape_type s).
  - intros e He. destruct (Hkind e He) as (-> & _).
    unfold containsPoint, boundingRect. by rewrite He.
  - intros path Hpath. unfold containsPoint, boundingRect. by rewrite Hpath.
Qed.

(** [makePath] does not look at [_closed]: the path of a closed shape is
    the path of the open one, without a segment back to the first point. *)
Lemma makePath_set_closed (b : bool) s : makePath (set_closed b s) = makePath s.
Proof. done. Qed.


Lemma drawVertex_in_range v (i : Z) s :
  s_mul (scale v) (s_of_Z 2) <> s_of_Z 0 ->
  0 <= i < Z.of_nat (length (points s)) ->
  exists mark, drawVertex s_div v i s = Return mark.
Proof.
  intros Hdiv Hi. unfold drawVertex, index.
  rewrite (bool_decide_eq_false_2 _ Hdiv).
  rewrite norm_index_nonneg by done. cbn.
  destruct (lookup_lt_is_Some_2 (points s) (Z.to_nat i)) as [p ->]; [lia|].
  destruct (bool_decide _).
  - destruct (_highlightSettings _) as [size []]; by eexists.
  - destruct (point_type v); by eexists.
Qed.

Lemma drawVertices_in_range v s (indices : list Z) :
  s_mul (scale v) (s_of_Z 2) <> s_of_Z 0 ->
  Forall (fun i => 0 <= i < Z.of_nat (length (points s))) indices ->
  exists marks, drawVertices s_div v s indices = Return marks /\
                length marks = length indices.
Proof.
  intros Hdiv.
  induction 1 as [|i indices Hi _ (marks & IH & Hlen)]; [by exists []|].
  destruct (drawVertex_in_range v i s Hdiv Hi) as [mark Hmark].
  exists (mark :: marks). cbn. rewrite Hmark, IH. by rewrite Hlen.
Qed.

Lemma drawVertices_zero_divisor v s (i : Z) (indices : list Z) :
  s_mul (scale v) (s_of_Z 2) = s_of_Z 0 ->
  drawVertices s_div v s (i :: indices) = Raise ZeroDivisionError.
Proof.
  intros Hz. cbn [drawVertices]. unfold drawVertex.
  by rewrite (bool_decide_eq_true_2 _ Hz).
Qed.

Lemma range_up_in_range (n : nat) :
  Forall (fun i => 0 <= i < Z.of_nat n) (range_up 0 n).
Proof.
  unfold range_up. apply Forall_fmap, Forall_forall. intros k Hk.
  apply elem_of_seq in Hk. cbn. lia.
Qed.

Lemma range_up_length (start : Z) (n : nat) : length (range_up start n) = n.
Proof. unfold range_up. by rewrite length_fmap, length_seq. Qed.

Lemma finish_paint_drawn v s s' (line : QPainterPath C) :
  s_mul (scale v) (s_of_Z 2) <> s_of_Z 0 ->
  points s' = points s ->
  exists d, finish_paint v line
              (drawVertices s_div v s' (range_up 0 (length (points s)))) = Drawn d /\
    line_path d = line /\
    length (vrtx_path d) = length (points s) /\
    vertex_fill_highlighted d = bool_decide (_highlightIndex v <> None) /\
    line_path_filled d = fill v.
Proof.
  intros Hdiv Hs'. rewrite <- Hs'.
  destruct (drawVertices_in_range v s' _ Hdiv
              (range_up_in_range (length (points s'))))
    as (marks & -> & Hlen).
  rewrite range_up_length in Hlen. by eexists.
Qed.

Lemma finish_paint_zero_divisor v s s' (line : QPainterPath C) :
  s_mul (scale v) (s_of_Z 2) = s_of_Z 0 ->
  points s <> [] ->
  finish_paint v line (drawVertices s_div v s' (range_up 0 (length (points s))))
    = Raised ZeroDivisionError.
Proof.
  intros Hz Hne. destruct (points s) as [|p0 ps]; [done|].
  cbn [length range_up seq fmap list_fmap].
  by rewrite drawVertices_zero_divisor.
Qed.

(** With a zero [scale], [paint] raises on every shape that has
    points. *)
Lemma paint_zero_scale v s :
  scale v = s_of_Z 0 ->
  paint s_div v s =
    (match points s with
     | [] => NothingToPaint
     | _ :: _ => Raised ZeroDivisionError
     end, s).
Proof.
  intros Hz. unfold paint. destruct (points s); [done|].
  by rewrite (bool_decide_eq_true_2 _ Hz).
Qed.

Lemma paint_assertion v s :
  scale v <> s_of_Z 0 ->
  shape_type s = ShapeType.rectangle \/ shape_type s = ShapeType.circle ->
  (3 <= length (points s))%nat -> paint s_div v s = (AssertionError, s).
Proof.
  unfold paint. intros Hsc Hty Hlen.
  rewrite (bool_decide_eq_false_2 _ Hsc).
  destruct (points s) as [|a [|b [|c l]]] eqn:Hp; [simpl in Hlen; lia..|].
  destruct Hty as [-> | ->]; rewrite bool_decide_eq_false_2; try done;
    rewrite !elem_of_cons, elem_of_nil; simpl; lia.
Qed.

(** The two ways a call of [paint] goes when [scale] is not zero: it ends
    at once, in a way that does not depend on the rendering attributes,
    or it draws a line path over the vertices of a shape with the same
    points. *)
Lemma paint_form s :
  (exists r, (r = NothingToPaint \/ r = AssertionError \/ r = Raised TypeError) /\
     forall v, scale v <> s_of_Z 0 -> paint s_div v s = (r, s)) \/
  (exists s' (line : QPainterPath C), points s' = points s /\
     forall v, scale v <> s_of_Z 0 -> paint s_div v s =
       (finish_paint v line
          (drawVertices s_div v s' (range_up 0 (length (points s)))), s')).
Proof.
  unfold paint. destruct (points s) as [|p0 ps] eqn:Hp.
  { left. exists NothingToPaint. split; [by left|done]. }
  rewrite <- Hp.
  destruct (shape_type s) eqn:Hty.
  - right. exists (init_poly_array s). eexists. split; [done|].
    intros v Hv. by rewrite (bool_decide_eq_false_2 _ Hv).
  - right. exists (init_poly_array s). eexists. split; [done|].
    intros v Hv. by rewrite (bool_decide_eq_false_2 _ Hv).
  - destruct (bool_decide (_ ∈ _)) eqn:E.
    + right. exists s. eexists. split; [done|].
      intros v Hv. by rewrite (bool_decide_eq_false_2 _ Hv).
    + left. exists AssertionError. split; [by right; left|].
      intros v Hv. by rewrite (bool_decide_eq_false_2 _ Hv).
  - right. exists (init_poly_array s). eexists. split; [done|].
    intros v Hv. by rewrite (bool_decide_eq_false_2 _ Hv).
  - right. exists (init_poly_array s). eexists. split; [done|].
    intros v Hv. by rewrite (bool_decide_eq_false_2 _ Hv).
  - destruct (bool_decide (_ ∈ _)) eqn:E.
    + destruct ps as [|b [|c l]].
      * right. exists s. eexists. split; [done|].
        intros v Hv. by rewrite (bool_decide_eq_false_2 _ Hv).
      * right. rewrite Hp. cbn [getCircleRectFromLine]. rewrite <- Hp.
        exists s. eexists. split; [done|].
        intros v Hv. by rewrite (bool_decide_eq_false_2 _ Hv).
      * right. exists s. eexists. split; [done|].
        intros v Hv. by rewrite (bool_decide_eq_false_2 _ Hv).
    + left. exists AssertionError. split; [by right; left|].
      intros v Hv. by rewrite (bool_decide_eq_false_2 _ Hv).
  - right. exists s. eexists. split; [done|].
    intros v Hv. by rewrite (bool_decide_eq_false_2 _ Hv).
Qed.

(** A shape with points that passes the assertion of its branch, painted
    with a [scale] that is not zero, gets as far as its vertex marks. *)
Lemma paint_reaches_vertices v s :
  points s <> [] ->
  ~ ((shape_type s = ShapeType.rectangle \/ shape_type s = ShapeType.circle) /\
     (3 <= length (points s))%nat) ->
  scale v <> s_of_Z 0 ->
  exists s' (line : QPainterPath C), points s' = points s /\
    paint s_div v s =
      (finish_paint v line
         (drawVertices s_div v s' (range_up 0 (length (points s)))), s').
Proof.
  intros Hne Hok Hsc.
  assert (Hsmall : shape_type s = ShapeType.rectangle \/
                   shape_type s = ShapeType.circle ->
                   bool_decide (length (points s) ∈ [1; 2]%nat) = true).
  { intros Hty. apply bool_decide_eq_true_2.
    rewrite !elem_of_cons, elem_of_nil.
    assert (length (points s) <> 0)%nat by (by destruct (points s)).
    assert (~ (3 <= length (points s))%nat) by (intros H3; by apply Hok). lia. }
  clear Hok. unfold paint.
  destruct (points s) as [|p0 ps] eqn:Hp; [done|]. rewrite <- Hp in *.
  rewrite (bool_decide_eq_false_2 _ Hsc).
  destruct (shape_type s) eqn:Hty; rewrite ?Hsmall by auto;
    try (eexists _, _; split; [|reflexivity]; done).
  destruct ps as [|b [|c l]];
    try (eexists _, _; split; [|reflexivity]; done).
  rewrite Hp. cbn [getCircleRectFromLine]. rewrite <- Hp.
  eexists _, _; split; [|reflexivity]; done.
Qed.

(** How [paint] ends: it does nothing on a shape without points; on a
    shape with points and a zero [scale] the pen width raises
    [ZeroDivisionError] before anything else is done; on a rectangle or
    circle with 3 or more points its assertion fails before anything is
    drawn; in every other case it draws, with one vertex mark per point,
    unless the divisor [scale * 2] of the first vertex mark is zero. It
    never ends on another exception. *)
Theorem paint_outcome v s :
  (points s = [] -> paint s_div v s = (NothingToPaint, s)) /\
  (points s <> [] -> scale v = s_of_Z 0 ->
   paint s_div v s = (Raised ZeroDivisionError, s)) /\
  (scale v <> s_of_Z 0 ->
   shape_type s = ShapeType.rectangle \/ shape_type s = ShapeType.circle ->
   (3 <= length (points s))%nat -> paint s_div v s = (AssertionError, s)) /\
  (points s <> [] ->
   ~ ((shape_type s = ShapeType.rectangle \/ shape_type s = ShapeType.circle) /\
      (3 <= length (points s))%nat) ->
   scale v <> s_of_Z 0 ->
   (s_mul (scale v) (s_of_Z 2) <> s_of_Z 0 ->
    exists d, (paint s_div v s).1 = Drawn d /\
      length (vrtx_path d) = length (points s) /\
      vertex_fill_highlighted d = bool_decide (_highlightIndex v <> None) /\
      line_path_filled d = fill v) /\
   (s_mul (scale v) (s_of_Z 2) = s_of_Z 0 ->
    (paint s_div v s).1 = Raised ZeroDivisionError)).
Proof.
  split; [unfold paint; by intros ->|]. split; [|split; [apply paint_assertion|]].
  - intros Hne Hz. rewrite (paint_zero_scale v s Hz). by destruct (points s).
  - intros Hne Hok Hsc.
    destruct (paint_reaches_vertices v s Hne Hok Hsc) as (s' & line & Hs' & ->).
    cbn [fst]. split.
    + intros Hdiv.
      destruct (finish_paint_drawn v s s' line Hdiv Hs')
        as (d & -> & _ & ? & ? & ?).
      by exists d.
    + intros Hz. by apply finish_paint_zero_divisor.
Qed.

(** What [paint] does to the shape: it never touches [points],
    [_closed], [prev_val] or the type; for a shape with points whose type
    is not rectangle, circle or linestrip, and a [scale] that is not
    zero, it rebuilds the buffer from [points], so the shape is
    consistent afterwards whatever the buffer was, as it is after an
    [insertPoint] that did not end on [OverflowError]; in every other
    case the shape is left as it is. *)
Theorem paint_rebuilds_buffer v s :
  points (paint s_div v s).2 = points s /\
  _closed (paint s_div v s).2 = _closed s /\
  prev_val (paint s_div v s).2 = prev_val s /\
  shape_type (paint s_div v s).2 = shape_type s /\
  (shape_type s <> ShapeType.rectangle -> shape_type s <> ShapeType.circle ->
   shape_type s <> ShapeType.linestrip -> scale v <> s_of_Z 0 ->
     (points s <> [] -> consistent (paint s_div v s).2) /\
     (forall (i : Z) (p : QPointF.t C),
        index_fits (length (points s)) i = true ->
        consistent (paint s_div v (insertPoint i p s).2).2)) /\
  (points s = [] \/ shape_type s = ShapeType.rectangle \/
   shape_type s = ShapeType.circle \/ shape_type s = ShapeType.linestrip \/
   scale v = s_of_Z 0 ->
     (paint s_div v s).2 = s).
Proof.
  assert (Hstate : forall s' : Shape C,
            (paint s_div v s').2 = s' \/
            (points s' <> [] /\ shape_type s' <> ShapeType.rectangle /\
             shape_type s' <> ShapeType.circle /\
             shape_type s' <> ShapeType.linestrip /\
             scale v <> s_of_Z 0 /\
             (paint s_div v s').2 = init_poly_array s')).
  { intros s'. unfold paint.
    destruct (points s') as [|p0 ps] eqn:Hp; [by left|].
    destruct (bool_decide (scale v = s_of_Z 0)) eqn:Esc; [by left|].
    apply bool_decide_eq_false_1 in Esc.
    destruct (shape_type s') eqn:Hty.
    - right. by split_and!.
    - right. by split_and!.
    - left. by destruct (bool_decide (_ ∈ _)).
    - right. by split_and!.
    - right. by split_and!.
    - left. destruct (bool_decide (_ ∈ _)); [|done].
      destruct ps as [|b [|c l]]; [done| |done].
      by destruct (getCircleRectFromLine _).
    - by left. }
  assert (Hdefault : forall s' : Shape C,
            points s' <> [] -> shape_type s' <> ShapeType.rectangle ->
            shape_type s' <> ShapeType.circle ->
            shape_type s' <> ShapeType.linestrip -> scale v <> s_of_Z 0 ->
            (paint s_div v s').2 = init_poly_array s' /\
            consistent (paint s_div v s').2).
  { intros s' Hne Hr Hc Hl Hsc.
    assert (E : (paint s_div v s').2 = init_poly_array s').
    { unfold paint. destruct (points s') as [|p0 ps] eqn:Hp; [done|].
      rewrite (bool_decide_eq_false_2 _ Hsc). by destruct (shape_type s'). }
    split; [exact E|]. rewrite E. unfold consistent, init_poly_array, np_array.
    cbn [poly_array points set_poly_array]. by destruct (points s'). }
  split_and!.
  - by destruct (Hstate s) as [-> | (_ & _ & _ & _ & _ & ->)].
  - by destruct (Hstate s) as [-> | (_ & _ & _ & _ & _ & ->)].
  - by destruct (Hstate s) as [-> | (_ & _ & _ & _ & _ & ->)].
  - by destruct (Hstate s) as [-> | (_ & _ & _ & _ & _ & ->)].
  - intros Hr Hc Hl Hsc. split.
    + intros Hne. by apply Hdefault.
    + intros i p Hfit. apply Hdefault; try done;
        rewrite insertPoint_state by done; cbn [points shape_type set_points];
        try done.
      intros E. apply (f_equal length) in E. by rewrite insert_at_length in E.
  - intros Hcase.
    destruct (Hstate s) as [-> | (Hne & Hr & Hc & Hl & Hsc & _)]; [done|].
    by destruct Hcase as [? | [? | [? | [? | ?]]]].
Qed.

(** The outline [paint] draws for a shape whose type is not rectangle,
    circle or linestrip goes to the first point, through every point, and
    back to the first point when the shape is closed; the path of
    [makePath], which [containsPoint] and [boundingRect] use, goes
    through the same points and never back, closed or not. The outline
    of a linestrip is not closed either. The rendering attributes are
    such that no division is by zero. *)
Theorem paint_closes_outline_makePath_does_not v s p0 ps :
  divides v ->
  points s = p0 :: ps ->
  shape_type s <> ShapeType.rectangle ->
  shape_type s <> ShapeType.circle ->
  makePath s = Return (MoveTo p0 :: (LineTo <$> ps)) /\
  makePath (set_closed (negb (_closed s)) s) = makePath s /\
  exists d, (paint s_div v s).1 = Drawn d /\
    line_path d =
      MoveTo p0 :: LineTo p0 :: (LineTo <$> ps) ++
        (if _closed s && bool_decide (shape_type s <> ShapeType.linestrip)
         then [LineTo p0] else []).
Proof.
  intros [Hsc Hdiv] Hp Hr Hc. split; [|split; [done|]].
  - unfold makePath. rewrite Hp. by destruct (shape_type s).
  - unfold paint. rewrite Hp. rewrite <- Hp.
    rewrite (bool_decide_eq_false_2 _ Hsc).
    destruct (shape_type s) eqn:Hty; try done;
      match goal with
      | |- context [finish_paint ?v ?line (drawVertices _ ?v ?s' _)] =>
          destruct (finish_paint_drawn v s s' line Hdiv eq_refl)
            as (d & Hd & Hline & _);
          cbn [fst]; rewrite Hd; exists d; split; [done|]; rewrite Hline
      end;
      unfold init_poly_array, isClosed;
      cbn [points _closed set_poly_array]; rewrite ?Hp;
      rewrite ?andb_true_r; try done.
    rewrite (bool_decide_eq_false_2 (_ <> _)) by (by intros []).
    by rewrite andb_false_r, app_nil_r.
Qed.

(** [addPoint] does not ask [canAddPoint]: a third point that does not
    compare equal to the first goes into a rectangle or circle like any
    other, and from then on [makePath] gives the empty path and [paint]
    fails its assertion (or, with a zero [scale], raises
    [ZeroDivisionError] before it). *)
Theorem third_point_empties_path v s p1 p2 p :
  shape_type s = ShapeType.rectangle \/ shape_type s = ShapeType.circle ->
  points s = [p1; p2] ->
  QPointF.eqb p p1 = false ->
  canAddPoint s = false /\
  (exists e, makePath s = Return [e]) /\
  points (addPoint p s).2 = [p1; p2; p] /\
  makePath (addPoint p s).2 = Return [] /\
  (scale v <> s_of_Z 0 ->
   paint s_div v (addPoint p s).2 = (AssertionError, (addPoint p s).2)) /\
  (scale v = s_of_Z 0 ->
   paint s_div v (addPoint p s).2 = (Raised ZeroDivisionError, (addPoint p s).2)).
Proof.
  intros Hty Hp Hne.
  assert (Hno : equals_first p s = false) by (unfold equals_first; by rewrite Hp).
  assert (Hadd : points (addPoint p s).2 = [p1; p2; p] /\
                 shape_type (addPoint p s).2 = shape_type s).
  { rewrite (addPoint_appends _ _ Hno), Hp.
    by destruct (poly_array s) as [[|pa]|]. }
  destruct Hadd as [Hpts Hty'].
  split_and!.
  - unfold canAddPoint. apply bool_decide_eq_false_2.
    rewrite !elem_of_cons, elem_of_nil. destruct Hty as [-> | ->]; intuition done.
  - unfold makePath. rewrite Hp. destruct Hty as [-> | ->]; by eexists.
  - done.
  - unfold makePath. rewrite Hty', Hpts. by destruct Hty as [-> | ->].
  - intros Hsc. apply paint_assertion; [done|by rewrite Hty'|]. by rewrite Hpts.
  - intros Hz. by rewrite (paint_zero_scale _ _ Hz), Hpts.
Qed.

Lemma drawVertices_highlight_outside v s (j : Z) (action : HighlightMode)
    (indices : list Z) :
  j ∉ indices ->
  drawVertices s_div (highlightVertex j action v) s indices =
  drawVertices s_div (highlightClear v) s indices.
Proof.
  induction indices as [|i indices IH]; [done|].
  intros Hj. apply not_elem_of_cons in Hj as [Hji Hj].
  cbn [drawVertices]. rewrite (IH Hj).
  assert (E : drawVertex s_div (highlightVertex j action v) i s =
              drawVertex s_div (highlightClear v) i s).
  { unfold drawVertex. cbn [_highlightIndex highlightVertex highlightClear
      point_size scale point_type].
    rewrite (bool_decide_eq_false_2 (Some i = Some j)) by congruence.
    by rewrite (bool_decide_eq_false_2 (Some i = None)). }
  by rewrite E.
Qed.

(** The highlight index is compared with the vertex position as it is:
    highlighting an index that is no position of the shape, a negative
    one or one past the end, enlarges no vertex mark. The shape is
    painted with the marks of the cleared highlight, and they are filled
    with the highlight colour all the same. *)
Theorem paint_highlight_outside v s (j : Z) (action : HighlightMode) :
  j < 0 \/ Z.of_nat (length (points s)) <= j ->
  (paint s_div (highlightVertex j action v) s).2 =
    (paint s_div (highlightClear v) s).2 /\
  forall d, (paint s_div (highlightClear v) s).1 = Drawn d ->
    vertex_fill_highlighted d = false /\
    (paint s_div (highlightVertex j action v) s).1 =
      Drawn (mkDrawing (line_path d) (vrtx_path d) true (line_path_filled d)).
Proof.
  intros Hj.
  assert (Hout : j ∉ range_up 0 (length (points s))).
  { intros Hin. pose proof (range_up_in_range (length (points s))) as Hall.
    rewrite Forall_forall in Hall. specialize (Hall j Hin). cbn in Hall. lia. }
  destruct (decide (scale v = s_of_Z 0)) as [Hz|Hsc].
  { rewrite (paint_zero_scale (highlightVertex j action v) s Hz),
      (paint_zero_scale (highlightClear v) s Hz). cbn [fst snd].
    split; [done|]. intros d. by destruct (points s). }
  destruct (paint_form s) as [(r & Hr & Hpaint) | (s' & line & Hs' & Hpaint)];
    rewrite (Hpaint (highlightVertex j action v) Hsc),
      (Hpaint (highlightClear v) Hsc); cbn [fst snd].
  - split; [done|]. intros d ->. by destruct Hr as [|[|]].
  - split; [done|]. intros d.
    rewrite drawVertices_highlight_outside by done.
    unfold finish_paint. destruct (drawVertices _ _ _ _); [|done].
    by intros [= <-].
Qed.

End MorePathFacts.

(** [getRectFromLine] makes the first point the origin of the rectangle
    and the second its opposite corner, with a signed width and height:
    with the points swapped both change sign. The path of a rectangle
    shape with these two points is that rectangle. Coordinates are real
    numbers. *)
Theorem getRectFromLine_corners (pt1 pt2 : QPointF.t R) :
  QRectF.left (getRectFromLine pt1 pt2) = QPointF.x pt1 /\
  QRectF.top (getRectFromLine pt1 pt2) = QPointF.y pt1 /\
  (QRectF.left (getRectFromLine pt1 pt2) + QRectF.width (getRectFromLine pt1 pt2)
   = QPointF.x pt2)%R /\
  (QRectF.top (getRectFromLine pt1 pt2) + QRectF.height (getRectFromLine pt1 pt2)
   = QPointF.y pt2)%R /\
  (QRectF.width (getRectFromLine pt2 pt1)
   = - QRectF.width (getRectFromLine pt1 pt2))%R /\
  (QRectF.height (getRectFromLine pt2 pt1)
   = - QRectF.height (getRectFromLine pt1 pt2))%R /\
  forall s : Shape R,
    shape_type s = ShapeType.rectangle -> points s = [pt1; pt2] ->
    makePath s = Return [AddRect (getRectFromLine pt1 pt2)].
Proof.
  unfold getRectFromLine. cbn.
  split_and!; try done; try ring.
  intros s Hty Hp. unfold makePath. by rewrite Hty, Hp.
Qed.

(** *** The further properties at concrete shapes *)

Lemma popPoint_removes_last_witness :
  consistent two_points /\
  points two_points = [ZP 0 0] ++ [ZP 1 1] /\
  popPoint two_points =
    (Return (Some (ZP 1 1)),
     mkShape [ZP 0 0] (Some (Rows [(0, 0)])) false None ShapeType.polygon).
Proof.
  split; [reflexivity|]. split; [reflexivity|].
  exact (popPoint_removes_last two_points [ZP 0 0] (ZP 1 1) eq_refl eq_refl).
Defined.

Lemma popPoint_undoes_addPoint_witness :
  equals_first (ZP 5 5) two_points = false /\
  consistent two_points /\
  popPoint (addPoint (ZP 5 5) two_points).2 = (Return (Some (ZP 5 5)), two_points) /\
  popPoint (addPoint (ZP 5 5) (init ShapeType.polygon)).2 =
    (Return (Some (ZP 5 5)),
     mkShape [] (Some (Rows [])) false None ShapeType.polygon) /\
  addPoint (ZP 5 5) blank_with_buffer =
    (Raise ValueError,
     mkShape [ZP 5 5] (Some Empty1D) false None ShapeType.polygon) /\
  popPoint (addPoint (ZP 5 5) blank_with_buffer).2 =
    (Return (Some (ZP 5 5)), blank_with_buffer).
Proof.
  split; [reflexivity|]. split; [reflexivity|]. split; [|split; [|split]].
  - exact (proj2 (proj1 (popPoint_undoes_addPoint (ZP 5 5) two_points eq_refl)
                    eq_refl)).
  - exact (proj2 (proj1 (proj2 (popPoint_undoes_addPoint (ZP 5 5)
                                  (init ShapeType.polygon) eq_refl)) eq_refl)).
  - reflexivity.
  - exact (proj2 (proj2 (proj2 (popPoint_undoes_addPoint (ZP 5 5)
                                  blank_with_buffer eq_refl)) eq_refl)).
Defined.

Lemma insertPoint_then_getitem_witness :
  index_fits (length (points two_points)) (-1) = true /\
  __getitem__ (-2) (insertPoint (-1) (ZP 5 5) two_points).2 = Return (ZP 5 5) /\
  __getitem__ (-1) (insertPoint (-1) (ZP 5 5) two_points).2 = Return (ZP 1 1) /\
  index_fits (length (points two_points)) (- 2 ^ 63 - 1) = false /\
  insertPoint (- 2 ^ 63 - 1) (ZP 5 5) two_points =
    (Raise OverflowError, two_points).
Proof.
  pose proof (insertPoint_then_getitem (-1) (ZP 5 5) two_points) as Hm.
  pose proof (insertPoint_then_getitem (- 2 ^ 63 - 1) (ZP 5 5) two_points) as Hb.
  cbv zeta in Hm, Hb.
  destruct (proj1 Hm eq_refl) as (_ & _ & Hneg & _).
  destruct (Hneg ltac:(simpl; lia)) as [H1 H2].
  split; [reflexivity|]. split; [exact H1|]. split; [exact H2|].
  split; [reflexivity|]. exact (proj2 Hb eq_refl).
Defined.

Lemma setitem_leaves_buffer_witness :
  consistent two_points /\
  __getitem__ (-1) two_points = Return (ZP 1 1) /\
  (__setitem__ (-1) (ZP 7 7) two_points).2 =
    mkShape [ZP 0 0; ZP 7 7] (Some (Rows [(0, 0); (1, 1)])) false None
            ShapeType.polygon /\
  ~ consistent (__setitem__ (-1) (ZP 7 7) two_points).2.
Proof.
  split; [reflexivity|]. split; [reflexivity|]. split; [reflexivity|].
  intros Hc.
  pose proof (proj1 (proj2 (proj2 (proj2 (proj2
    (setitem_leaves_buffer (-1) (ZP 7 7) two_points (ZP 1 1) eq_refl eq_refl)))))
    Hc) as E.
  discriminate E.
Defined.

Lemma removePoint_in_range_witness :
  consistent two_points /\
  0 <= 0 < Z.of_nat (length (points two_points)) /\
  removePoint 0 two_points =
    (Return (),
     mkShape [ZP 1 1] (Some (Rows [(1, 1)])) false None ShapeType.polygon, []) /\
  removePoint (0 - Z.of_nat (length (points two_points))) two_points =
    removePoint 0 two_points.
Proof.
  assert (Hi : 0 <= 0 < Z.of_nat (length (points two_points))) by (simpl; lia).
  split; [reflexivity|]. split; [exact Hi|].
  exact (removePoint_in_range 0 two_points eq_refl Hi).
Defined.


Lemma moveBy_compose_witness :
  (forall x y z : Z, s_add (s_add x y) z = s_add x (s_add y z)) /\
  moveBy (ZP 3 4) (moveBy (ZP 1 2) two_points).2 = moveBy (ZP 4 6) two_points /\
  moveBy (ZP 3 4) (moveBy (ZP 1 2) (init ShapeType.polygon)).2 =
    (Raise TypeError, init ShapeType.polygon).
Proof.
  assert (Hassoc : forall x y z : Z, s_add (s_add x y) z = s_add x (s_add y z))
    by (intros x y z; symmetry; apply Z.add_assoc).
  split; [exact Hassoc|]. split.
  - exact (moveBy_compose (ZP 1 2) (ZP 3 4) two_points Hassoc).
  - exact (moveBy_compose (ZP 1 2) (ZP 3 4) (init ShapeType.polygon) Hassoc).
Defined.

Lemma nearestVertex_snap_monotone_witness :
  s_ltb 2 5 = true /\
  nearestVertex (ZP 1 1) 2 square_Z = Return (Some 0, None) /\
  nearestVertex (ZP 1 1) 5 square_Z = Return (Some 0, None).
Proof.
  split; [reflexivity|]. split; [reflexivity|].
  exact (nearestVertex_snap_monotone (ZP 1 1) 2 5 square_Z 0 eq_refl eq_refl).
Defined.

Lemma nearestEdge_caches_forward_index_witness :
  poly_array square_Z = Some (Rows [(0, 0); (10, 0); (10, 10); (0, 10)]) /\
  0 <= 2 < 4 /\
  nearestEdge end_distance false (ZP 10 0) 0 2 square_Z =
    (Return (Some 1), set_prev_val (Some 3) square_Z) /\
  nearestEdge end_distance true (ZP 0 0) 0 0 (set_prev_val (Some 3) square_Z) =
    (Return (Some 3), set_prev_val (Some 3) square_Z) /\
  exists k : nat, (k < 2)%nat /\
    prev_val (nearestEdge end_distance false (ZP 10 0) 0 2 square_Z).2 =
      Some (forward_index 4 (2 + Z.of_nat k)).
Proof.
  split; [reflexivity|]. split; [lia|]. split; [reflexivity|].
  split; [reflexivity|].
  destruct (nearestEdge_caches_forward_index end_distance (ZP 10 0) 0 2 square_Z
              [(0, 0); (10, 0); (10, 10); (0, 10)] 1 eq_refl
              ltac:(simpl; lia) eq_refl) as (k & Hk & _ & Hprev).
  exists k. split; [exact Hk|exact Hprev].
Defined.

Lemma nearestEdge_up_to_3_rows_witness :
  poly_array two_points = Some (Rows [(0, 0); (1, 1)]) /\
  prev_val two_points = None /\
  (2 <= length [(0, 0); (1, 1)] <= 3)%nat /\
  (nearestEdge end_distance true (ZP 1 1) 0 1 two_points).1 = Return (Some 1) /\
  (nearestEdge end_distance true (ZP 1 1) 0 0 two_points).1 = Return None.
Proof.
  split; [reflexivity|]. split; [reflexivity|]. split; [simpl; lia|]. split.
  - exact (proj1 (proj2 (nearestEdge_up_to_3_rows end_distance true (ZP 1 1) 0 1
             two_points [(0, 0); (1, 1)] eq_refl (or_intror eq_refl)))
             ltac:(simpl; lia) ltac:(simpl; lia)).
  - exact (proj1 (proj2 (nearestEdge_up_to_3_rows end_distance true (ZP 1 1) 0 0
             two_points [(0, 0); (1, 1)] eq_refl (or_intror eq_refl)))
             ltac:(simpl; lia) ltac:(simpl; lia)).
Defined.

Lemma end_distance_returns : returns_on_segments end_distance.
Proof. intros p a b. by eexists. Qed.

Lemma nearestVertex_feeds_nearestEdge_witness :
  poly_array square_Z = Some (Rows [(0, 0); (10, 0); (10, 10); (0, 10)]) /\
  nearestVertex (ZP 9 1) 1 square_Z = Return (None, Some 1) /\
  returns_on_segments end_distance /\
  prev_val square_Z = None /\
  0 <= 1 < 4 /\
  (nearestEdge end_distance false (ZP 9 1) 2 1 square_Z).1 = Return (Some 1) /\
  (nearestEdge end_distance false (ZP 0 0) 0 0 square_Z).1 = Return (Some 0) /\
  (nearestEdge end_distance false (ZP 0 10) 0 0 square_Z).1 = Return None.
Proof.
  pose proof end_distance_returns as Hret.
  assert (Hpa : poly_array square_Z =
                Some (Rows [(0, 0); (10, 0); (10, 10); (0, 10)])) by reflexivity.
  assert (Hnv : nearestVertex (ZP 9 1) 1 square_Z = Return (None, Some 1))
    by reflexivity.
  split; [exact Hpa|]. split; [exact Hnv|]. split; [exact Hret|].
  split; [reflexivity|].
  destruct (nearestVertex_feeds_nearestEdge end_distance (ZP 9 1) 1 (ZP 9 1) 2
              false square_Z [(0, 0); (10, 0); (10, 10); (0, 10)] None (Some 1) 1
              Hpa Hnv (or_intror eq_refl)) as [Hin Hrun].
  split; [exact Hin|]. split; [exact (Hrun Hret (or_introl eq_refl))|].
  split; reflexivity.
Defined.

Lemma nearestEdge_exceptions_witness :
  nearestEdge end_distance false (ZP 0 0) 0 0 (init ShapeType.polygon) =
    (Raise TypeError, init ShapeType.polygon) /\
  nearestEdge_default false (ZP 0 0) 0 square_Z = (Raise TypeError, square_Z) /\
  nearestEdge_default true (ZP 0 0) 0 (set_prev_val (Some 3) square_Z) =
    (Return (Some 3), set_prev_val (Some 3) square_Z) /\
  exists r, (nearestEdge end_distance false (ZP 9 1) 2 1 square_Z).1 = Return r.
Proof.
  split; [|split; [|split]].
  - exact (proj1 (proj1 (nearestEdge_exceptions end_distance false (ZP 0 0) 0 0
                           (init ShapeType.polygon)) (or_introl eq_refl)) eq_refl).
  - exact (proj2 (proj1 (nearestEdge_exceptions end_distance false (ZP 0 0) 0 0
                           square_Z) (or_introl eq_refl))).
  - reflexivity.
  - exact (proj2 (proj2 (nearestEdge_exceptions end_distance false (ZP 9 1) 2 1
                           square_Z))
             [(0, 0); (10, 0); (10, 10); (0, 10)] eq_refl ltac:(simpl; lia)
             end_distance_returns).
Defined.

Lemma paint_outcome_witness :
  points square_Z <> [] /\
  scale zero_scale_rendering = s_of_Z 0 /\
  paint Z.div zero_scale_rendering square_Z =
    (Raised ZeroDivisionError, square_Z) /\
  scale default_rendering <> s_of_Z 0 /\
  exists d, (paint Z.div default_rendering square_Z).1 = Drawn d /\
    length (vrtx_path d) = 4%nat.
Proof.
  assert (Hne : points square_Z <> []) by discriminate.
  pose proof (paint_outcome Z.div zero_scale_rendering square_Z)
    as (_ & Hzero & _).
  pose proof (paint_outcome Z.div default_rendering square_Z)
    as (_ & _ & _ & Hdraw).
  split; [exact Hne|]. split; [reflexivity|]. split; [exact (Hzero Hne eq_refl)|].
  split; [discriminate|].
  destruct (proj1 (Hdraw Hne ltac:(intros [[E|E] _]; discriminate E)
                     ltac:(discriminate)) ltac:(discriminate))
    as (d & Hd & Hlen & _).
  exists d. split; [exact Hd|exact Hlen].
Defined.

Lemma paint_rebuilds_buffer_witness :
  consistent (paint Z.div default_rendering
                (insertPoint 0 (ZP 5 5) two_points).2).2 /\
  poly_array (paint Z.div default_rendering
                (insertPoint 0 (ZP 5 5) two_points).2).2 =
    Some (Rows [(5, 5); (0, 0); (1, 1)]) /\
  (paint Z.div zero_scale_rendering
     (insertPoint 0 (ZP 5 5) two_points).2).2 =
    (insertPoint 0 (ZP 5 5) two_points).2.
Proof.
  pose proof (paint_rebuilds_buffer Z.div default_rendering two_points)
    as (_ & _ & _ & _ & Hdef & _).
  pose proof (paint_rebuilds_buffer Z.div zero_scale_rendering
                (insertPoint 0 (ZP 5 5) two_points).2)
    as (_ & _ & _ & _ & _ & Hsame).
  split; [|split].
  - exact (proj2 (Hdef ltac:(discriminate) ltac:(discriminate)
                    ltac:(discriminate) ltac:(discriminate)) 0 (ZP 5 5) eq_refl).
  - reflexivity.
  - apply Hsame. do 4 right. reflexivity.
Defined.

Lemma paint_closes_outline_makePath_does_not_witness :
  divides default_rendering /\
  points (close square_Z) = ZP 0 0 :: [ZP 10 0; ZP 10 10; ZP 0 10] /\
  shape_type (close square_Z) <> ShapeType.rectangle /\
  shape_type (close square_Z) <> ShapeType.circle /\
  makePath (close square_Z) =
    Return [MoveTo (ZP 0 0); LineTo (ZP 10 0); LineTo (ZP 10 10);
            LineTo (ZP 0 10)] /\
  exists d, (paint Z.div default_rendering (close square_Z)).1 = Drawn d /\
    line_path d =
      [MoveTo (ZP 0 0); LineTo (ZP 0 0); LineTo (ZP 10 0); LineTo (ZP 10 10);
       LineTo (ZP 0 10); LineTo (ZP 0 0)].
Proof.
  assert (Hdiv : divides default_rendering) by (split; discriminate).
  split; [exact Hdiv|].
  split; [reflexivity|]. split; [discriminate|]. split; [discriminate|].
  destruct (paint_closes_outline_makePath_does_not Z.div default_rendering
              (close square_Z) (ZP 0 0) [ZP 10 0; ZP 10 10; ZP 0 10] Hdiv eq_refl
              ltac:(discriminate) ltac:(discriminate)) as (Hmk & _ & d & Hd & Hline).
  split; [exact Hmk|]. exists d. split; [exact Hd|exact Hline].
Defined.

Lemma third_point_empties_path_witness :
  (shape_type rectangle_Z = ShapeType.rectangle \/
   shape_type rectangle_Z = ShapeType.circle) /\
  points rectangle_Z = [ZP 0 0; ZP 10 5] /\
  QPointF.eqb (ZP 3 3) (ZP 0 0) = false /\
  canAddPoint rectangle_Z = false /\
  makePath rectangle_Z = Return [AddRect (QRectF.mk 0 0 10 5)] /\
  makePath (addPoint (ZP 3 3) rectangle_Z).2 = Return [] /\
  (paint Z.div default_rendering (addPoint (ZP 3 3) rectangle_Z).2).1 =
    AssertionError /\
  (paint Z.div zero_scale_rendering (addPoint (ZP 3 3) rectangle_Z).2).1 =
    Raised ZeroDivisionError.
Proof.
  assert (Hne : QPointF.eqb (ZP 3 3) (ZP 0 0) = false) by reflexivity.
  split; [left; reflexivity|]. split; [reflexivity|]. split; [exact Hne|].
  destruct (third_point_empties_path Z.div default_rendering rectangle_Z
              (ZP 0 0) (ZP 10 5) (ZP 3 3) (or_introl eq_refl) eq_refl Hne)
    as (Hcan & _ & _ & Hmk & Hpaint & _).
  destruct (third_point_empties_path Z.div zero_scale_rendering rectangle_Z
              (ZP 0 0) (ZP 10 5) (ZP 3 3) (or_introl eq_refl) eq_refl Hne)
    as (_ & _ & _ & _ & _ & Hzero).
  split; [exact Hcan|]. split; [reflexivity|]. split; [exact Hmk|]. split.
  - by rewrite (Hpaint ltac:(discriminate)).
  - by rewrite (Hzero eq_refl).
Defined.

Lemma paint_highlight_outside_witness :
  (-1 < 0 \/ Z.of_nat (length (points square_Z)) <= -1) /\
  __getitem__ (-1) square_Z = Return (ZP 0 10) /\
  (paint Z.div (highlightClear default_rendering) square_Z).1 =
    Drawn (mkDrawing
      [MoveTo (ZP 0 0); LineTo (ZP 0 0); LineTo (ZP 10 0); LineTo (ZP 10 10);
       LineTo (ZP 0 10)]
      [RoundMark (ZP 0 0) 4 4; RoundMark (ZP 10 0) 4 4;
       RoundMark (ZP 10 10) 4 4; RoundMark (ZP 0 10) 4 4] false false) /\
  (paint Z.div (highlightVertex (-1) MOVE_VERTEX default_rendering) square_Z).1 =
    Drawn (mkDrawing
      [MoveTo (ZP 0 0); LineTo (ZP 0 0); LineTo (ZP 10 0); LineTo (ZP 10 10);
       LineTo (ZP 0 10)]
      [RoundMark (ZP 0 0) 4 4; RoundMark (ZP 10 0) 4 4;
       RoundMark (ZP 10 10) 4 4; RoundMark (ZP 0 10) 4 4] true false) /\
  (paint Z.div (highlightVertex 3 MOVE_VERTEX default_rendering) square_Z).1 =
    Drawn (mkDrawing
      [MoveTo (ZP 0 0); LineTo (ZP 0 0); LineTo (ZP 10 0); LineTo (ZP 10 10);
       LineTo (ZP 0 10)]
      [RoundMark (ZP 0 0) 4 4; RoundMark (ZP 10 0) 4 4;
       RoundMark (ZP 10 10) 4 4; SquareMark (QRectF.mk (-8) 2 16 16)] true false).
Proof.
  assert (Hj : -1 < 0 \/ Z.of_nat (length (points square_Z)) <= -1) by (left; lia).
  split; [exact Hj|]. split; [reflexivity|]. split; [reflexivity|]. split.
  - exact (proj2 (proj2 (paint_highlight_outside Z.div default_rendering square_Z
             (-1) MOVE_VERTEX Hj) _ eq_refl)).
  - reflexivity.
Defined.

(** Closing by the first point: [addPoint] with the first point, which
    compares equal to itself, closes the shape, and doing it again
    changes nothing more; [setOpen] then gives back the open shape. So
    does [addPoint] with any point that compares equal to the first.
    [addPoint] does not look at [_closed]: a closed shape takes further
    points like an open one and stays closed. *)
Theorem close_by_first_point {C : Type} `{Scalar C} (s : Shape C)
    (p0 : QPointF.t C) (ps : list (QPointF.t C)) :
  points s = p0 :: ps ->
  QPointF.eqb p0 p0 = true ->
  addPoint p0 s = (Return (), close s) /\
  isClosed (addPoint p0 s).2 = true /\
  addPoint p0 (addPoint p0 s).2 = addPoint p0 s /\
  (isClosed s = false -> setOpen (addPoint p0 s).2 = s) /\
  (forall p, QPointF.eqb p p0 = true -> addPoint p s = (Return (), close s)) /\
  (forall p, QPointF.eqb p p0 = false ->
     isClosed (addPoint p (close s)).2 = true /\
     points (addPoint p (close s)).2 = points s ++ [p]).
Proof.
  intros Hp Hrefl.
  assert (Hclose : forall (s' : Shape C) p, points s' = p0 :: ps ->
            QPointF.eqb p p0 = true -> addPoint p s' = (Return (), close s')).
  { intros s' p Hs' Heq. unfold addPoint, equals_first. by rewrite Hs', Heq. }
  rewrite !(Hclose _ p0) by done. cbn [snd].
  split_and!; try done.
  - unfold isClosed. intros Hopen. destruct s. cbn in *. by subst.
  - intros p Heq. by apply Hclose.
  - intros p Hne.
    assert (Hno : equals_first p (close s) = false).
    { unfold equals_first. cbn [points close set_closed]. by rewrite Hp. }
    rewrite (addPoint_appends _ _ Hno). unfold isClosed.
    by destruct (poly_array (close s)) as [[|pa]|].
Qed.

Lemma close_by_first_point_witness :
  points square_Z = ZP 0 0 :: [ZP 10 0; ZP 10 10; ZP 0 10] /\
  QPointF.eqb (ZP 0 0) (ZP 0 0) = true /\
  isClosed square_Z = false /\
  isClosed (addPoint (ZP 0 0) square_Z).2 = true /\
  setOpen (addPoint (ZP 0 0) square_Z).2 = square_Z /\
  points (addPoint (ZP 5 5) (close square_Z)).2 =
    [ZP 0 0; ZP 10 0; ZP 10 10; ZP 0 10; ZP 5 5].
Proof.
  assert (Hrefl : QPointF.eqb (ZP 0 0) (ZP 0 0) = true) by reflexivity.
  assert (Hno : QPointF.eqb (ZP 5 5) (ZP 0 0) = false) by reflexivity.
  destruct (close_by_first_point square_Z (ZP 0 0) [ZP 10 0; ZP 10 10; ZP 0 10]
              eq_refl Hrefl) as (_ & Hc & _ & Ho & _ & Hadd).
  split; [reflexivity|]. split; [exact Hrefl|]. split; [reflexivity|].
  split; [exact Hc|]. split; [exact (Ho eq_refl)|].
  exact (proj2 (Hadd (ZP 5 5) Hno)).
Defined.
